(** * Marian configuration object: settings store, override and device resolution

    A shallow embedding of [src/common/config.cpp] (class [marian::Config]):
    the settings store behind [has]/[get], [Config::override],
    [Config::initialize] (model-parameter loading and version logging) and
    [Config::getDevices], followed by the properties the specification
    states about them. *)

From Stdlib Require Import NArith ZArith List String Ascii Bool Lia.
Import ListNotations.

Local Open Scope string_scope.
Local Open Scope list_scope.
Local Open Scope N_scope.

(* ================================================================= *)
(** ** Machine integers *)

(** [size_t] is a 64-bit unsigned integer.  Values are kept in [N]; the
    wrap-around of the arithmetic the code performs is written out with
    [wrap]. *)
Definition SIZE_MOD : N := 2 ^ 64.

Definition wrap (x : N) : N := x mod SIZE_MOD.

(* ================================================================= *)
(** ** Outcomes of a call *)

(** The exceptions that can travel through the code of [Config].  The YAML
    library's exceptions derive from [std::runtime_error]; the ones thrown by
    [std::stoull] derive from [std::logic_error]. *)
Inductive Exn : Type :=
| YamlInvalidNode (key : string)     (* reading a key that is not there *)
| YamlBadConversion (key : string)   (* [as<T>] on a value of another type *)
| InvalidArgument                    (* [std::invalid_argument] *)
| OutOfRange                         (* [std::out_of_range] *)
| RuntimeError (what : string)       (* any other [std::runtime_error] *)
| OtherException (what : string).    (* anything else *)

(** What [catch(std::runtime_error&)] catches. *)
Definition is_runtime_error (e : Exn) : bool :=
  match e with
  | YamlInvalidNode _ | YamlBadConversion _ | RuntimeError _ => true
  | InvalidArgument | OutOfRange | OtherException _ => false
  end.

(** A call returns, throws, stops the process through [ABORT_IF], or steps
    outside the language's defined behaviour (division by zero, an iterator
    range outside its vector, [front] of an empty vector). *)
Inductive Result (A : Type) : Type :=
| Ret (a : A)
| Throw (e : Exn)
| Abort (msg : string)
| Undefined (what : string).

Arguments Ret {A} a.
Arguments Throw {A} e.
Arguments Abort {A} msg.
Arguments Undefined {A} what.

Definition bind {A B : Type} (r : Result A) (k : A -> Result B) : Result B :=
  match r with
  | Ret a => k a
  | Throw e => Throw e
  | Abort msg => Abort msg
  | Undefined w => Undefined w
  end.

Notation "x <- e ;; k" := (bind e (fun x => k))
  (at level 61, e at next level, right associativity).
Notation "e ;;; k" := (bind e (fun _ => k))
  (at level 61, right associativity).

(** [ABORT_IF(cond, msg)]: logs [msg] and terminates the process when [cond]
    holds. *)
Definition ABORT_IF (cond : bool) (msg : string) : Result unit :=
  if cond then Abort msg else Ret tt.

(* ================================================================= *)
(** ** Loops *)

(** [for (size_t i = start; i < start + trip; ++i) st = body(i, st);] *)
Fixpoint for_upto {S : Type} (trip : nat) (i : N) (body : N -> S -> S) (st : S) : S :=
  match trip with
  | O => st
  | Datatypes.S t => for_upto t (N.succ i) body (body i st)
  end.

(** [for (auto x : xs) st = body(x, st);] where the body may throw. *)
Fixpoint for_each {A S : Type} (xs : list A) (body : A -> S -> Result S) (st : S)
  : Result S :=
  match xs with
  | [] => Ret st
  | x :: rest => st' <- body x st ;; for_each rest body st'
  end.

(** The indices [i, i+1, ..., i+k-1]. *)
Fixpoint iota (i : N) (k : nat) : list N :=
  match k with
  | O => []
  | Datatypes.S k' => i :: iota (N.succ i) k'
  end.

(* ================================================================= *)
(** ** [std::vector] operations used by the code *)

Definition vsize {A : Type} (v : list A) : N := N.of_nat (List.length v).

(** [v.erase(v.begin(), v.begin() + k)]: the iterator range must lie inside
    the vector. *)
Definition erase_front {A : Type} (v : list A) (k : N) : Result (list A) :=
  if k <=? vsize v then Ret (skipn (N.to_nat k) v)
  else Undefined "erase: iterator range outside the vector".

(** [v.resize(n)]: truncates, or pads with value-initialised elements. *)
Definition resize (v : list N) (n : N) : list N :=
  firstn (N.to_nat n) v ++ repeat 0 (N.to_nat n - List.length v).

(** Unsigned division; dividing by zero is undefined. *)
Definition udiv (a b : N) : Result N :=
  if b =? 0 then Undefined "division by zero" else Ret (a / b).

(* ================================================================= *)
(** ** [std::stoull] *)

Definition is_space (c : ascii) : bool :=
  let n := N_of_ascii c in (n =? 32) || ((9 <=? n) && (n <=? 13)).

Definition digit_of (c : ascii) : option N :=
  let n := N_of_ascii c in
  if (48 <=? n) && (n <=? 57) then Some (n - 48) else None.

Fixpoint skip_space (s : string) : string :=
  match s with
  | String c rest => if is_space c then skip_space rest else s
  | EmptyString => s
  end.

(** The value of the longest prefix of decimal digits, [None] when the
    string does not start with a digit. *)
Fixpoint read_digits (s : string) (acc : option N) : option N :=
  match s with
  | String c rest =>
      match digit_of c with
      | Some d =>
          read_digits rest
            (Some (10 * match acc with Some a => a | None => 0 end + d))
      | None => acc
      end
  | EmptyString => acc
  end.

(** [std::stoull(str)] (base 10): leading white space, an optional sign, then
    as many decimal digits as there are; what follows is ignored.  No digit
    at all throws [std::invalid_argument], a magnitude that does not fit 64
    bits throws [std::out_of_range], and a minus sign negates the value in
    the unsigned type. *)
Definition stoull (str : string) : Result N :=
  let s := skip_space str in
  let '(neg, body) :=
    match s with
    | String "-" rest => (true, rest)
    | String "+" rest => (false, rest)
    | _ => (false, s)
    end in
  match read_digits body None with
  | None => Throw InvalidArgument
  | Some v =>
      if SIZE_MOD <=? v then Throw OutOfRange
      else Ret (if neg then wrap (SIZE_MOD - v) else v)
  end.

(* ================================================================= *)
(** ** The settings document *)

(** Modelled from the spec: the YAML node type behind [config_] and the
    typed conversions of [Config::get<T>] are declared in [common/config.h]
    and the YAML library, outside [config.cpp].  The
    specification describes the document as "a mapping from string key to
    typed value (string, integer, boolean, list-of-string, or nested
    document)", ordered by insertion. *)
#[warnings="-register-all"]
Inductive Value : Type :=
| VStr (s : string)
| VInt (n : Z)
| VBool (b : bool)
| VList (l : list string)
| VDoc (d : list (string * Value)).

Definition Document : Type := list (string * Value).

Definition keys (d : Document) : list string := map fst d.

(** [node[key]] for reading: the first entry with that key. *)
Fixpoint lookup (key : string) (d : Document) : option Value :=
  match d with
  | [] => None
  | (k, v) :: rest => if String.eqb k key then Some v else lookup key rest
  end.

(** [node[key] = v]: the entry with that key takes the new value where it
    stands; a key that is not there is appended. *)
Fixpoint assign (key : string) (v : Value) (d : Document) : Document :=
  match d with
  | [] => [(key, v)]
  | (k, w) :: rest =>
      if String.eqb k key then (k, v) :: rest else (k, w) :: assign key v rest
  end.

(** Modelled from the spec: the conversion trait behind [as<T>()], one
    instance per type the code reads. *)
Class Convert (T : Type) : Type := decode : Value -> option T.

#[export] Instance convert_size_t : Convert N :=
  fun v =>
    match v with
    | VInt n => if ((0 <=? n) && (n <? 2 ^ 64))%Z then Some (Z.to_N n) else None
    | _ => None
    end.

#[export] Instance convert_string : Convert string :=
  fun v => match v with VStr s => Some s | _ => None end.

#[export] Instance convert_bool : Convert bool :=
  fun v => match v with VBool b => Some b | _ => None end.

#[export] Instance convert_strings : Convert (list string) :=
  fun v => match v with VList l => Some l | _ => None end.

(* ================================================================= *)
(** ** The [Config] object *)

Record Config : Type := { config_ : Document }.

(** [Config::has]: [return config_[key];] *)
Definition has (c : Config) (key : string) : bool :=
  match lookup key (config_ c) with
  | Some _ => true
  | None => false
  end.

(** Modelled from the spec: the template [Config::get<T>] is defined in
    [common/config.h] ([return config_[key].as<T>();]); reading a key that is
    not there, or one whose value is of another type, throws. *)
Definition get {T : Type} `{Convert T} (c : Config) (key : string) : Result T :=
  match lookup key (config_ c) with
  | None => Throw (YamlInvalidNode key)
  | Some v =>
      match decode v with
      | Some t => Ret t
      | None => Throw (YamlBadConversion key)
      end
  end.

(** [Config::override]:
    [for(auto& it : params) config_[it.first.as<std::string>()] = it.second;]
    The assignment makes the entry refer to the node of [params]; nothing
    writes to either afterwards, so the entry is modelled by its value. *)
Definition override (params : Document) (c : Config) : Config :=
  {| config_ :=
       fold_left (fun cfg it => assign (fst it) (snd it) cfg) params (config_ c) |}.

(* ================================================================= *)
(** ** Device identifiers *)

Inductive DeviceType : Type := gpu | cpu.

Record DeviceId : Type := { no : N; type : DeviceType }.

(* ================================================================= *)
(** ** [Config::getDevices] *)

Definition MSG_EQUAL : string := "devices[] size must be equal to numDevices".
Definition MSG_MULTIPLE : string :=
  "devices[] size must be equal to or a multiple of numDevices".
Definition MSG_PER_PROCESS : string :=
  "devices[] must either list a shared set of devices, or one set per MPI process".

(** Lines 179-181: [devices] read as numbers, in order. *)
Definition parseDevices (devicesArg : list string) : Result (list N) :=
  for_each devicesArg
    (fun d deviceNos => n <- stoull d ;; Ret (deviceNos ++ [n])) [].

(** Lines 183-191: the defaults for [numDevices] and [deviceNos]. *)
Definition gpuDefaults (numDevices : N) (deviceNos : list N) : N * list N :=
  match deviceNos with
  | [] =>
      let numDevices := if numDevices =? 0 then 1 else numDevices in
      (numDevices,
       for_upto (N.to_nat numDevices) 0 (fun i dn => dn ++ [i]) deviceNos)
  | _ :: _ =>
      if numDevices =? 0 then (vsize deviceNos, deviceNos)
      else (numDevices, deviceNos)
  end.

(** Lines 196-204: the three checks and the slice of this rank. *)
Definition gpuSlice (numDevices : N) (deviceNos : list N)
    (myMPIRank numMPIProcesses : N) : Result (list N) :=
  (if numMPIProcesses =? 1
   then ABORT_IF (negb (numDevices =? vsize deviceNos)) MSG_EQUAL
   else Ret tt) ;;;
  numPerMPIProcessDeviceNos <- udiv (vsize deviceNos) numDevices ;;
  ABORT_IF (negb (wrap (numDevices * numPerMPIProcessDeviceNos) =? vsize deviceNos))
           MSG_MULTIPLE ;;;
  if negb (numPerMPIProcessDeviceNos =? 1) then
    ABORT_IF (negb (numPerMPIProcessDeviceNos =? numMPIProcesses)) MSG_PER_PROCESS ;;;
    deviceNos <- erase_front deviceNos (wrap (myMPIRank * numDevices)) ;;
    Ret (resize deviceNos numDevices)
  else Ret deviceNos.

(** The body of [getDevices].  The per-rank log lines printed under
    [MPI_FOUND] do not touch the returned vector and are left out. *)
Definition getDevices (c : Config) (myMPIRank numMPIProcesses : N)
  : Result (list DeviceId) :=
  let devices : list DeviceId := [] in
  devicesArg <- get (T := list string) c "devices" ;;
  cpuThreads <- get (T := N) c "cpu-threads" ;;
  if 0 <? cpuThreads then
    Ret (for_upto (N.to_nat cpuThreads) 0
           (fun i devices => devices ++ [{| no := i; type := cpu |}]) devices)
  else
    numDevices <- (if has c "num-devices" then get (T := N) c "num-devices"
                   else Ret 0) ;;
    deviceNos <- parseDevices devicesArg ;;
    let '(numDevices, deviceNos) := gpuDefaults numDevices deviceNos in
    deviceNos <- gpuSlice numDevices deviceNos myMPIRank numMPIProcesses ;;
    Ret (fold_left (fun devices d => devices ++ [{| no := d; type := gpu |}])
           deviceNos devices).

(** A store with the three keys [getDevices] reads. *)
Definition deviceConfig (cpuThreads : Z) (numDevices : option Z)
    (devices : list string) : Config :=
  {| config_ :=
       [("cpu-threads", VInt cpuThreads); ("devices", VList devices)]
       ++ match numDevices with
          | Some n => [("num-devices", VInt n)]
          | None => []
          end |}.

(* ================================================================= *)
(** ** [Config::initialize] *)

Module cli.
(** Modelled from the spec: the run modes of [cli::mode], declared with
    the command-line parser. *)
Inductive mode : Type := training | translation | scoring | server.

Definition eqb (a b : mode) : bool :=
  match a, b with
  | training, training | translation, translation
  | scoring, scoring | server, server => true
  | _, _ => false
  end.
End cli.

(** One [LOG(level, format, args...)] call. *)
Inductive Level : Type := info | warn | error.

Record LogEntry : Type :=
  { level : Level; format : string; args : list string }.

(** What [initialize] reads and writes besides its arguments: the object's
    [config_], the static [Config::seed], and the log. *)
Record World : Type :=
  { this : Config; seed : N; logged : list LogEntry }.

(** Stateful code: what was written before a throw stays written. *)
Definition M (A : Type) : Type := World -> Result A * World.

Definition mret {A : Type} (a : A) : M A := fun w => (Ret a, w).

Definition mbind {A B : Type} (m : M A) (k : A -> M B) : M B :=
  fun w =>
    match m w with
    | (Ret a, w') => k a w'
    | (Throw e, w') => (Throw e, w')
    | (Abort msg, w') => (Abort msg, w')
    | (Undefined what, w') => (Undefined what, w')
    end.

Notation "'do' x <- e ; k" := (mbind e (fun x => k))
  (at level 10, x name, e at level 100, k at level 200).
Notation "e >> k" := (mbind e (fun _ => k))
  (at level 62, right associativity).

Definition lift {A : Type} (r : Config -> Result A) : M A :=
  fun w => (r (this w), w).

Definition LOG (l : Level) (fmt : string) (a : list string) : M unit :=
  fun w =>
    (Ret tt,
     {| this := this w; seed := seed w;
        logged := logged w ++ [{| level := l; format := fmt; args := a |}] |}).

Definition set_config (d : Document) : M unit :=
  fun w => (Ret tt, {| this := {| config_ := d |}; seed := seed w; logged := logged w |}).

Definition set_seed (s : N) : M unit :=
  fun w => (Ret tt, {| this := this w; seed := s; logged := logged w |}).

(** [try { body } catch(std::runtime_error&) { handler }] *)
Definition try_catch_runtime_error (body handler : M unit) : M unit :=
  fun w =>
    match body w with
    | (Throw e, w') => if is_runtime_error e then handler w' else (Throw e, w')
    | r => r
    end.

Fixpoint for_each_M {A : Type} (xs : list A) (body : A -> M unit) : M unit :=
  match xs with
  | [] => mret tt
  | x :: rest => body x >> for_each_M rest body
  end.

Definition MSG_NO_MODEL_CONFIG : string :=
  "[config] No model configuration found in model file".
Definition MSG_UPGRADE : string :=
  "[config] Loaded model has been created with Marian {}, will be overwritten with current version {} at saving".
Definition MSG_LOADED : string :=
  "[config] Loaded model has been created with Marian {}".
Definition MSG_CREATED : string :=
  "[config] Model is being created with Marian {}".

Section Initialize.

(** The collaborators of [initialize]: the configuration the command-line
    parser produced, the clock, the file system, the reader of the
    settings fragment embedded in a model file, the YAML printer (its
    output split into lines) and the version of the build. *)
Variable parsed : Document.
Variable time0 : N.
Variable file_exists : string -> bool.
Variable getYamlFromModel : string -> Result Document.
Variable OutputYaml : Document -> list string.
Variable PROJECT_VERSION_FULL : string.

(** [Config::loadModelParameters(name)] *)
Definition loadModelParameters (name : string) : M unit :=
  do config <- lift (fun _ => getYamlFromModel name);
  fun w =>
    (Ret tt,
     {| this := override config (this w); seed := seed w; logged := logged w |}).

(** [Config::log] *)
Definition log : M unit :=
  fun w =>
    for_each_M (OutputYaml (config_ (this w)))
      (fun r => LOG info "[config] {}" [r]) w.

(** Lines 31-34. *)
Definition setSeed : M unit :=
  do s <- lift (fun c => get (T := N) c "seed");
  if s =? 0 then set_seed time0
  else do s' <- lift (fun c => get (T := N) c "seed"); set_seed s'.

(** Lines 37-57: load model parameters. *)
Definition loadModel (mode : cli.mode) : M unit :=
  if negb (cli.eqb mode cli.translation) then
    do model <- lift (fun c => get (T := string) c "model");
    do reload <-
      (if file_exists model
       then do noReload <- lift (fun c => get (T := bool) c "no-reload");
            mret (negb noReload)
       else mret false);
    if reload then
      try_catch_runtime_error
        (do ignore <- lift (fun c => get (T := bool) c "ignore-model-config");
         if negb ignore then loadModelParameters model else mret tt)
        (LOG info MSG_NO_MODEL_CONFIG [])
    else mret tt
  else
    do models <- lift (fun c => get (T := list string) c "models");
    do model <-
      (fun w =>
         match models with
         | m :: _ => (Ret m, w)
         | [] => (Undefined "operator[] on an empty vector", w)
         end);
    try_catch_runtime_error
      (do ignore <- lift (fun c => get (T := bool) c "ignore-model-config");
       if negb ignore then loadModelParameters model else mret tt)
      (LOG info MSG_NO_MODEL_CONFIG []).

(** Lines 61-84: log the version of Marian that created the model. *)
Definition logVersion (mode : cli.mode) : M unit :=
  do hasVersion <- lift (fun c => Ret (has c "version"));
  if hasVersion then
    do version <- lift (fun c => get (T := string) c "version");
    if cli.eqb mode cli.training
       && negb (String.eqb version PROJECT_VERSION_FULL)
    then LOG info MSG_UPGRADE [version; PROJECT_VERSION_FULL]
    else LOG info MSG_LOADED [version]
  else if cli.eqb mode cli.training then
    LOG info MSG_CREATED [PROJECT_VERSION_FULL]
  else mret tt.

(** [Config::initialize]; [createLoggers] only sets the log sinks up. *)
Definition initialize (mode : cli.mode) : M unit :=
  set_config parsed >>
  setSeed >>
  loadModel mode >>
  log >>
  logVersion mode.

End Initialize.

(* ================================================================= *)
(** ** Vocabulary of the statements *)

Definition gpuId (d : N) : DeviceId := {| no := d; type := gpu |}.
Definition cpuId (i : N) : DeviceId := {| no := i; type := cpu |}.

(** [gpuPath c numDevices deviceNos]: on the store [c] the call takes the
    GPU path ([cpu-threads] is 0), every entry of [devices] is read as a
    number, and the defaulting steps leave [numDevices] and [deviceNos].
    The [devices] vector has fewer than 2^64 entries. *)
Definition gpuPath (c : Config) (numDevices : N) (deviceNos : list N) : Prop :=
  exists (devicesArg : list string) (numDevices0 : N) (deviceNos0 : list N),
    get (T := list string) c "devices" = Ret devicesArg /\
    get (T := N) c "cpu-threads" = Ret 0 /\
    (if has c "num-devices" then get (T := N) c "num-devices" else Ret 0)
      = Ret numDevices0 /\
    parseDevices devicesArg = Ret deviceNos0 /\
    gpuDefaults numDevices0 deviceNos0 = (numDevices, deviceNos) /\
    vsize devicesArg < SIZE_MOD.

(** [num-devices] is unresolved: not given, or given as 0. *)
Definition unresolved (c : Config) : Prop :=
  has c "num-devices" = false \/ get (T := N) c "num-devices" = Ret 0.

(** The loop of [override] on the document itself. *)
Definition assignAll (params d : Document) : Document :=
  fold_left (fun cfg it => assign (fst it) (snd it) cfg) params d.

Definition entry (fmt : string) (a : list string) : LogEntry :=
  {| level := info; format := fmt; args := a |}.

(** The world [w] with [es] added to the log, and nothing else changed. *)
Definition emit (w : World) (es : list LogEntry) : World :=
  {| this := this w; seed := seed w; logged := logged w ++ es |}.

(** On the store [c] and in mode [mode], [initialize] gets to call the
    loader on [model]: through ["model"], an existing file and a reload that
    is not switched off in the modes other than translation, through the
    first of ["models"] in translation; ["ignore-model-config"] is off. *)
Definition reachesLoader (file_exists : string -> bool) (c : Config)
    (mode : cli.mode) (model : string) : Prop :=
  get (T := bool) c "ignore-model-config" = Ret false /\
  ((mode <> cli.translation /\
    get (T := string) c "model" = Ret model /\
    file_exists model = true /\
    get (T := bool) c "no-reload" = Ret false) \/
   (mode = cli.translation /\
    exists rest, get (T := list string) c "models" = Ret (model :: rest))).

(** Sample stores. *)
Definition loadedWorld (version : string) : World :=
  {| this := {| config_ := [("version", VStr version)] |};
     seed := 0; logged := [] |}.

Definition trainingSettings : Document :=
  [("seed", VInt 0); ("model", VStr "model.npz"); ("no-reload", VBool false);
   ("ignore-model-config", VBool false)].

Definition translationSettings : Document :=
  [("seed", VInt 1111); ("models", VList ["model.npz"; "other.npz"]);
   ("ignore-model-config", VBool false)].

Definition startWorld : World :=
  {| this := {| config_ := [] |}; seed := 0; logged := [] |}.

Definition modelSettings : Document :=
  [("seed", VInt 3); ("version", VStr "v1.6.0")].

(* ================================================================= *)
(** * Properties *)

(** ** Loops and vectors *)

Lemma for_upto_push {A : Type} (f : N -> A) (k : nat) :
  forall (i : N) (acc : list A),
    for_upto k i (fun j st => st ++ [f j]) acc = acc ++ map f (iota i k).
Proof.
  induction k as [|k IH]; intros i acc; simpl.
  - now rewrite app_nil_r.
  - rewrite IH, <- app_assoc. reflexivity.
Qed.

Lemma fold_left_push {A B : Type} (f : A -> B) (xs : list A) :
  forall acc : list B,
    fold_left (fun st x => st ++ [f x]) xs acc = acc ++ map f xs.
Proof.
  induction xs as [|x xs IH]; intros acc; simpl.
  - now rewrite app_nil_r.
  - rewrite IH, <- app_assoc. reflexivity.
Qed.

Lemma iota_length (k : nat) : forall i, List.length (iota i k) = k.
Proof. induction k; intros i; simpl; [reflexivity | now rewrite IHk]. Qed.

Lemma iota_nth (k : nat) :
  forall (i : N) (j : nat),
    (j < k)%nat -> nth_error (iota i k) j = Some (i + N.of_nat j).
Proof.
  induction k as [|k IH]; intros i j Hj; [lia|].
  destruct j as [|j]; simpl.
  - f_equal. lia.
  - rewrite IH by lia. f_equal. lia.
Qed.

Lemma vsize_iota (n : N) : vsize (iota 0 (N.to_nat n)) = n.
Proof. unfold vsize. rewrite iota_length. lia. Qed.

Lemma vsize_map {A B : Type} (f : A -> B) (v : list A) : vsize (map f v) = vsize v.
Proof. unfold vsize. now rewrite length_map. Qed.

Lemma parse_length (ds : list string) :
  forall acc out,
    for_each ds (fun d deviceNos => n <- stoull d ;; Ret (deviceNos ++ [n])) acc
      = Ret out ->
    List.length out = (List.length acc + List.length ds)%nat.
Proof.
  induction ds as [|d ds IH]; intros acc out H; simpl in H.
  - inversion H. simpl. lia.
  - destruct (stoull d) as [n| | |]; simpl in H; try discriminate.
    apply IH in H. rewrite H, length_app. simpl. lia.
Qed.

Lemma parseDevices_vsize (ds : list string) (out : list N) :
  parseDevices ds = Ret out -> vsize out = vsize ds.
Proof.
  intros H. apply parse_length in H. unfold vsize. simpl in H. now rewrite H.
Qed.

Lemma get_size_t_bound (c : Config) (key : string) (n : N) :
  get (T := N) c key = Ret n -> n < SIZE_MOD.
Proof.
  unfold get, decode, convert_size_t.
  destruct (lookup key (config_ c)) as [v|]; [|discriminate].
  destruct v as [s|z|b|l|d]; try discriminate.
  destruct ((0 <=? z)%Z && (z <? 2 ^ 64)%Z) eqn:E; [|discriminate].
  intros H. inversion H. subst.
  apply andb_true_iff in E. destruct E as [E1 E2].
  apply Z.leb_le in E1. apply Z.ltb_lt in E2.
  unfold SIZE_MOD. change (2 ^ 64) with (Z.to_N (2 ^ 64)%Z). lia.
Qed.

(** ** The GPU path *)

(** Two outcomes that differ, or two of the fatal messages. *)
Ltac other_outcome :=
  cbn [bind]; let E := fresh "E" in
  intros E; unfold MSG_EQUAL, MSG_MULTIPLE, MSG_PER_PROCESS in E; discriminate E.

Ltac gpuPath_eval :=
  do 3 eexists; repeat (split; [reflexivity|]); reflexivity.

Lemma getDevices_gpuPath (c : Config) (nd : N) (dn : list N) (r np : N) :
  gpuPath c nd dn ->
  getDevices c r np = (ds <- gpuSlice nd dn r np ;; Ret (map gpuId ds)).
Proof.
  intros (da & nd0 & dn0 & Hd & Hc & Hn & Hp & Hg & _).
  unfold getDevices. rewrite Hd. cbn [bind]. rewrite Hc. cbn [bind].
  change (0 <? 0) with false. cbv iota.
  rewrite Hn. cbn [bind]. rewrite Hp. cbn [bind]. rewrite Hg.
  destruct (gpuSlice nd dn r np); cbn [bind]; try reflexivity.
  now rewrite fold_left_push.
Qed.

Lemma gpuPath_bounds (c : Config) (nd : N) (dn : list N) :
  gpuPath c nd dn -> 1 <= nd /\ 1 <= vsize dn /\ vsize dn < SIZE_MOD.
Proof.
  intros (da & nd0 & dn0 & _ & _ & Hn & Hp & Hg & Hlen).
  assert (Hnd0 : nd0 < SIZE_MOD).
  { destruct (has c "num-devices").
    - eapply get_size_t_bound; eauto.
    - inversion Hn. reflexivity. }
  apply parseDevices_vsize in Hp.
  unfold gpuDefaults in Hg. destruct dn0 as [|d dn0].
  - inversion Hg; subst. rewrite for_upto_push. cbn [app].
    rewrite vsize_map, vsize_iota.
    destruct (nd0 =? 0) eqn:E; [split; [lia | split; [lia | reflexivity]]|].
    apply N.eqb_neq in E. lia.
  - destruct (nd0 =? 0) eqn:E; inversion Hg; subst.
    + rewrite Hp. unfold vsize in *. cbn [List.length] in *. lia.
    + apply N.eqb_neq in E. rewrite Hp. unfold vsize in *.
      cbn [List.length] in *. lia.
Qed.

(** The checks and the slice, with the wrap-around gone: the products the
    code forms stay below the vector's size. *)
Lemma gpuSlice_spec (nd : N) (dn : list N) (r np : N) :
  1 <= nd -> vsize dn < SIZE_MOD ->
  gpuSlice nd dn r np =
    if (np =? 1) && negb (nd =? vsize dn) then Abort MSG_EQUAL
    else if negb (nd * (vsize dn / nd) =? vsize dn) then Abort MSG_MULTIPLE
    else if vsize dn / nd =? 1 then Ret dn
    else if negb (vsize dn / nd =? np) then Abort MSG_PER_PROCESS
    else rest <- erase_front dn (wrap (r * nd)) ;; Ret (resize rest nd).
Proof.
  intros Hnd Hlen. unfold gpuSlice, udiv, ABORT_IF.
  assert (Hw : wrap (nd * (vsize dn / nd)) = nd * (vsize dn / nd)).
  { unfold wrap. apply N.mod_small.
    pose proof (N.Div0.mul_div_le (vsize dn) nd). lia. }
  replace (nd =? 0) with false by (symmetry; apply N.eqb_neq; lia).
  destruct (np =? 1); destruct (nd =? vsize dn);
    cbn [andb negb bind]; try reflexivity; rewrite Hw;
    destruct (nd * (vsize dn / nd) =? vsize dn); cbn [negb bind];
    try reflexivity;
    destruct (vsize dn / nd =? 1); cbn [negb bind]; try reflexivity;
    destruct (vsize dn / nd =? np); cbn [negb bind]; reflexivity.
Qed.

(** Inside a vector of [np] blocks of [nd] entries, the block of rank [r]
    starts at an offset the multiplication reaches without wrapping, and
    ends inside the vector. *)
Lemma slice_in_bounds (nd len r np : N) :
  len < SIZE_MOD -> nd * np = len -> r < np ->
  wrap (r * nd) = r * nd /\ r * nd + nd <= len.
Proof.
  intros Hlen Hmul Hr.
  assert (H : r * nd + nd <= len) by nia.
  split; [|exact H]. unfold wrap. apply N.mod_small. lia.
Qed.

Lemma resize_block (dn : list N) (k nd : N) :
  k + nd <= vsize dn ->
  resize (skipn (N.to_nat k) dn) nd
    = firstn (N.to_nat nd) (skipn (N.to_nat k) dn).
Proof.
  intros H. unfold resize, vsize in *. rewrite length_skipn.
  replace (N.to_nat nd - (List.length dn - N.to_nat k))%nat with 0%nat by lia.
  apply app_nil_r.
Qed.

Lemma gpuSlice_block (nd : N) (dn : list N) (r np : N) :
  1 <= nd -> vsize dn < SIZE_MOD ->
  nd * (vsize dn / nd) = vsize dn -> vsize dn / nd <> 1 ->
  vsize dn / nd = np -> r < np ->
  gpuSlice nd dn r np
    = Ret (firstn (N.to_nat nd) (skipn (N.to_nat (r * nd)) dn)).
Proof.
  intros Hnd Hlen Hmul Hper Hnp Hr.
  rewrite gpuSlice_spec by assumption.
  assert (Hnp1 : np <> 1) by congruence.
  apply N.eqb_neq in Hnp1. rewrite Hnp1. cbn [andb].
  apply N.eqb_eq in Hmul. rewrite Hmul. cbn [negb].
  apply N.eqb_neq in Hper. rewrite Hper.
  rewrite (proj2 (N.eqb_eq _ _) Hnp). cbn [negb].
  apply N.eqb_eq in Hmul. rewrite Hnp in Hmul.
  destruct (slice_in_bounds nd (vsize dn) r np Hlen Hmul Hr) as [Hw Hb].
  rewrite Hw. unfold erase_front.
  replace (r * nd <=? vsize dn) with true by (symmetry; apply N.leb_le; lia).
  cbn [bind]. now rewrite resize_block.
Qed.

Lemma block_nth {A : Type} (dn : list A) (k nd i : nat) :
  (i < nd)%nat ->
  nth_error (firstn nd (skipn k dn)) i = nth_error dn (k + i).
Proof.
  intros Hi. rewrite nth_error_firstn.
  replace (PeanoNat.Nat.ltb i nd) with true
    by (symmetry; apply PeanoNat.Nat.ltb_lt; exact Hi).
  apply nth_error_skipn.
Qed.

Lemma block_vsize {A : Type} (dn : list A) (k nd : N) :
  k + nd <= vsize dn ->
  vsize (firstn (N.to_nat nd) (skipn (N.to_nat k) dn)) = nd.
Proof.
  unfold vsize. intros H. rewrite length_firstn, length_skipn. lia.
Qed.

(* ================================================================= *)
(** ** The CPU path *)

(** C2. With [cpu-threads = n > 0], [getDevices] returns exactly [n] CPU
    device identifiers, the [i]-th one with index [i], whatever the
    [devices] list, [num-devices], the rank and the number of processes
    are. *)
Theorem getDevices_cpu (c : Config) (n : N) (devicesArg : list string)
    (myMPIRank numMPIProcesses : N) :
  get (T := N) c "cpu-threads" = Ret n -> 0 < n ->
  get (T := list string) c "devices" = Ret devicesArg ->
  exists ds,
    getDevices c myMPIRank numMPIProcesses = Ret ds /\
    ds = map cpuId (iota 0 (N.to_nat n)) /\
    vsize ds = n /\
    forall i, i < n -> nth_error ds (N.to_nat i) = Some {| no := i; type := cpu |}.
Proof.
  intros Hc Hn Hd. eexists. split; [|split; [reflexivity|split]].
  - unfold getDevices. rewrite Hd. cbn [bind]. rewrite Hc. cbn [bind].
    apply N.ltb_lt in Hn. rewrite Hn. rewrite for_upto_push. reflexivity.
  - rewrite vsize_map. apply vsize_iota.
  - intros i Hi. rewrite nth_error_map, iota_nth by lia.
    cbn [option_map]. unfold cpuId. do 2 f_equal. lia.
Qed.

Lemma getDevices_cpu_witness :
  exists ds,
    getDevices (deviceConfig 3 (Some 4%Z) ["7"; "x"]) 1 2 = Ret ds /\
    ds = map cpuId (iota 0 (N.to_nat 3)) /\
    vsize ds = 3 /\
    forall i, i < 3 -> nth_error ds (N.to_nat i) = Some {| no := i; type := cpu |}.
Proof.
  apply (getDevices_cpu (deviceConfig 3 (Some 4%Z) ["7"; "x"]) 3 ["7"; "x"] 1 2);
    reflexivity.
Defined.

(* ================================================================= *)
(** ** Defaults of the GPU path *)

Lemma unresolved_zero (c : Config) :
  unresolved c ->
  (if has c "num-devices" then get (T := N) c "num-devices" else Ret 0) = Ret 0.
Proof.
  intros [H|H].
  - now rewrite H.
  - destruct (has c "num-devices"); [exact H | reflexivity].
Qed.

Lemma resolved_value (c : Config) (n : N) :
  get (T := N) c "num-devices" = Ret n ->
  (if has c "num-devices" then get (T := N) c "num-devices" else Ret 0) = Ret n.
Proof.
  intros H. unfold has. unfold get in H.
  destruct (lookup "num-devices" (config_ c)) eqn:E; [|discriminate].
  unfold get. now rewrite E.
Qed.

Lemma getDevices_whole_list (c : Config) (nd : N) (dn : list N) (r np : N) :
  gpuPath c nd dn -> nd = vsize dn -> getDevices c r np = Ret (map gpuId dn).
Proof.
  intros Hp Hsame. destruct (gpuPath_bounds _ _ _ Hp) as (Hnd & _ & Hlen).
  rewrite (getDevices_gpuPath _ _ _ _ _ Hp), gpuSlice_spec by assumption.
  assert (Hper : vsize dn / nd = 1) by (rewrite <- Hsame; apply N.div_same; lia).
  rewrite Hper, N.mul_1_r. apply N.eqb_eq in Hsame. rewrite Hsame.
  rewrite andb_false_r. reflexivity.
Qed.

(** C3. In the GPU path (cpu-threads = 0): with an empty [devices] list,
    [numDevices] is 1 when [num-devices] is unresolved (absent or 0) and the
    given value otherwise, and [deviceNos] is [0 .. numDevices-1], so the
    call returns the GPU devices [0 .. numDevices-1], and the one GPU device
    0 when [num-devices] is unset; with a non-empty [devices] list and
    [num-devices] unresolved, [numDevices] is the length of the list, so the
    call returns the listed devices, whole, also for a single process.  All
    of it for every rank and number of processes. *)
Theorem gpu_defaults :
  (forall c myMPIRank numMPIProcesses,
      get (T := N) c "cpu-threads" = Ret 0 ->
      get (T := list string) c "devices" = Ret [] ->
      unresolved c ->
      getDevices c myMPIRank numMPIProcesses = Ret [{| no := 0; type := gpu |}]) /\
  (forall c myMPIRank numMPIProcesses n,
      get (T := N) c "cpu-threads" = Ret 0 ->
      get (T := list string) c "devices" = Ret [] ->
      get (T := N) c "num-devices" = Ret n -> n <> 0 ->
      exists ds,
        getDevices c myMPIRank numMPIProcesses = Ret ds /\
        vsize ds = n /\
        forall i, i < n ->
          nth_error ds (N.to_nat i) = Some {| no := i; type := gpu |}) /\
  (forall c myMPIRank numMPIProcesses devicesArg deviceNos,
      get (T := N) c "cpu-threads" = Ret 0 ->
      get (T := list string) c "devices" = Ret devicesArg ->
      devicesArg <> [] -> vsize devicesArg < SIZE_MOD ->
      unresolved c ->
      parseDevices devicesArg = Ret deviceNos ->
      getDevices c myMPIRank numMPIProcesses = Ret (map gpuId deviceNos) /\
      vsize deviceNos = vsize devicesArg) /\
  (forall n,
      let numDevices := if n =? 0 then 1 else n in
      gpuDefaults n [] = (numDevices, iota 0 (N.to_nat numDevices))) /\
  (forall c nd dn,
      gpuPath c nd dn -> get (T := list string) c "devices" = Ret [] ->
      dn = iota 0 (N.to_nat nd) /\
      (unresolved c -> nd = 1) /\
      (forall n, get (T := N) c "num-devices" = Ret n -> n <> 0 -> nd = n)) /\
  (forall d rest, gpuDefaults 0 (d :: rest) = (vsize (d :: rest), d :: rest)) /\
  (forall c nd dn d rest,
      gpuPath c nd dn -> get (T := list string) c "devices" = Ret (d :: rest) ->
      unresolved c ->
      nd = vsize (d :: rest) /\ nd = vsize dn).
Proof.
  assert (Hempty : forall n,
             gpuDefaults n []
               = (if n =? 0 then 1 else n,
                  iota 0 (N.to_nat (if n =? 0 then 1 else n)))).
  { intros n. unfold gpuDefaults. rewrite for_upto_push. cbn [app].
    now rewrite map_id. }
  split; [|split; [|split; [|split; [exact Hempty|split; [|split]]]]].
  - intros c r np Hc Hd Hn. apply unresolved_zero in Hn.
    unfold getDevices. rewrite Hd. cbn [bind]. rewrite Hc. cbn [bind].
    change (0 <? 0) with false. cbv iota. rewrite Hn. cbn [bind].
    change (parseDevices []) with (@Ret (list N) []). cbn [bind].
    change (gpuDefaults 0 []) with (1, [0]). cbv iota beta.
    destruct (np =? 1) eqn:E; unfold gpuSlice; rewrite E; reflexivity.
  - intros c r np n Hc Hd Hn Hne.
    assert (Hg : gpuDefaults n [] = (n, iota 0 (N.to_nat n))).
    { rewrite Hempty. apply N.eqb_neq in Hne. now rewrite Hne. }
    exists (map gpuId (iota 0 (N.to_nat n))). split; [|split].
    + apply (getDevices_whole_list c n); [|now rewrite vsize_iota].
      exists [], n, [].
      split; [exact Hd|]. split; [exact Hc|].
      split; [now apply resolved_value|]. split; [reflexivity|].
      split; [exact Hg | reflexivity].
    + rewrite vsize_map. apply vsize_iota.
    + intros i Hi. rewrite nth_error_map, iota_nth by lia.
      cbn [option_map]. unfold gpuId. do 2 f_equal. lia.
  - intros c r np da dn Hc Hd Hne Hlen Hu Hparse.
    pose proof (parseDevices_vsize da dn Hparse) as Hsize.
    split; [|exact Hsize].
    assert (Hg : gpuDefaults 0 dn = (vsize dn, dn)).
    { destruct dn as [|x dn]; [|reflexivity].
      destruct da; [congruence|discriminate Hsize]. }
    apply (getDevices_whole_list c (vsize dn)); [|reflexivity].
    exists da, 0, dn.
    split; [exact Hd|]. split; [exact Hc|].
    split; [now apply unresolved_zero|]. split; [exact Hparse|].
    split; [exact Hg | exact Hlen].
  - intros c nd dn (da & nd0 & dn0 & Hd & _ & Hn & Hp & Hg & _) Hd'.
    rewrite Hd in Hd'. inversion Hd'. subst da.
    inversion Hp. subst dn0. rewrite Hempty in Hg. inversion Hg.
    split; [reflexivity|]. split.
    + intros Hu. rewrite (unresolved_zero c Hu) in Hn. now inversion Hn.
    + intros n Hget Hne. rewrite (resolved_value c n Hget) in Hn.
      inversion Hn. subst nd0.
      apply N.eqb_neq in Hne. now rewrite Hne.
  - reflexivity.
  - intros c nd dn d rest (da & nd0 & dn0 & Hd & _ & Hn & Hp & Hg & _) Hd' Hu.
    rewrite Hd in Hd'. inversion Hd'. subst da.
    rewrite (unresolved_zero c Hu) in Hn. inversion Hn. subst nd0.
    apply parseDevices_vsize in Hp.
    destruct dn0 as [|x dn0]; [discriminate Hp|].
    inversion Hg. subst. split; [exact Hp|reflexivity].
Qed.

Lemma gpu_defaults_witness :
  getDevices (deviceConfig 0 None []) 3 5 = Ret [{| no := 0; type := gpu |}] /\
  getDevices (deviceConfig 0 (Some 0%Z) []) 0 1 = Ret [{| no := 0; type := gpu |}] /\
  (exists ds,
      getDevices (deviceConfig 0 (Some 4%Z) []) 0 1 = Ret ds /\
      vsize ds = 4 /\
      forall i, i < 4 ->
        nth_error ds (N.to_nat i) = Some {| no := i; type := gpu |}) /\
  getDevices (deviceConfig 0 None ["5"; "6"; "7"]) 0 1
    = Ret (map gpuId [5; 6; 7]).
Proof.
  destruct gpu_defaults as (Hone & Hcount & Hlist & _).
  split; [|split; [|split]].
  - apply (Hone (deviceConfig 0 None []) 3 5);
      [reflexivity | reflexivity | left; reflexivity].
  - apply (Hone (deviceConfig 0 (Some 0%Z) []) 0 1);
      [reflexivity | reflexivity | right; reflexivity].
  - apply (Hcount (deviceConfig 0 (Some 4%Z) []) 0 1 4);
      [reflexivity | reflexivity | reflexivity | discriminate].
  - apply (Hlist (deviceConfig 0 None ["5"; "6"; "7"]) 0 1 ["5"; "6"; "7"]
             [5; 6; 7]);
      [reflexivity | reflexivity | discriminate | reflexivity
      | left; reflexivity | reflexivity].
Defined.

(* ================================================================= *)
(** ** The checks of the GPU path *)

Lemma per_process_one (nd len : N) :
  1 <= nd -> nd * (len / nd) = len -> (len / nd = 1 <-> nd = len).
Proof.
  intros Hnd Hmul. split; intros H.
  - rewrite H in Hmul. lia.
  - subst len. apply N.div_same. lia.
Qed.

(** C4. In the GPU path with one process, a [numDevices] that differs from
    the size of [deviceNos] stops the call at the fatal error "devices[] size
    must be equal to numDevices"; with equal sizes the check passes (and the
    call returns [deviceNos] as GPU devices). *)
Theorem single_process_size_check (c : Config) (nd : N) (dn : list N) (r : N) :
  gpuPath c nd dn ->
  (nd <> vsize dn -> getDevices c r 1 = Abort MSG_EQUAL) /\
  (nd = vsize dn -> getDevices c r 1 = Ret (map gpuId dn)).
Proof.
  intros Hp. destruct (gpuPath_bounds _ _ _ Hp) as (Hnd & _ & Hlen).
  rewrite (getDevices_gpuPath _ _ _ _ _ Hp), gpuSlice_spec by assumption.
  change (1 =? 1) with true. cbn [andb]. split; intros H.
  - apply N.eqb_neq in H. rewrite H. reflexivity.
  - assert (Hper : vsize dn / nd = 1) by (rewrite <- H; apply N.div_same; lia).
    rewrite Hper, N.mul_1_r. apply N.eqb_eq in H. rewrite H. reflexivity.
Qed.

Lemma single_process_size_check_witness :
  getDevices (deviceConfig 0 (Some 2%Z) ["0"; "1"; "2"]) 0 1 = Abort MSG_EQUAL /\
  getDevices (deviceConfig 0 (Some 2%Z) ["4"; "5"]) 0 1 = Ret [gpuId 4; gpuId 5].
Proof.
  split.
  - apply (proj1 (single_process_size_check
                    (deviceConfig 0 (Some 2%Z) ["0"; "1"; "2"]) 2 [0; 1; 2] 0
                    ltac:(gpuPath_eval))).
    discriminate.
  - apply (proj2 (single_process_size_check
                    (deviceConfig 0 (Some 2%Z) ["4"; "5"]) 2 [4; 5] 0
                    ltac:(gpuPath_eval))).
    reflexivity.
Defined.

(** C5. In the GPU path, after the defaulting steps and past the
    single-process check (with one process the sizes are equal): a size of
    [deviceNos] that is not an exact multiple of [numDevices] stops the call
    at the fatal error "devices[] size must be equal to or a multiple of
    numDevices"; with an exact multiple this check passes.  (With one process
    and unequal sizes the call has stopped one line earlier, at the
    single-process check.) *)
Theorem multiple_check (c : Config) (nd : N) (dn : list N) (r np : N) :
  gpuPath c nd dn ->
  ((np = 1 -> nd = vsize dn) ->
   nd * (vsize dn / nd) <> vsize dn ->
     getDevices c r np = Abort MSG_MULTIPLE) /\
  (nd * (vsize dn / nd) <> vsize dn -> np = 1 ->
     getDevices c r np = Abort MSG_EQUAL) /\
  (nd * (vsize dn / nd) = vsize dn ->
     getDevices c r np <> Abort MSG_MULTIPLE).
Proof.
  intros Hp. destruct (gpuPath_bounds _ _ _ Hp) as (Hnd & _ & Hlen).
  rewrite (getDevices_gpuPath _ _ _ _ _ Hp), gpuSlice_spec by assumption.
  split; [|split].
  - intros Hpassed Hm.
    assert (Hnp : np <> 1).
    { intros Hone. apply Hm. rewrite <- (Hpassed Hone) at 1.
      rewrite N.div_same by lia. rewrite <- (Hpassed Hone). lia. }
    apply N.eqb_neq in Hm, Hnp. rewrite Hm, Hnp. reflexivity.
  - intros Hm Hnp. subst np. change (1 =? 1) with true.
    assert (Hne : nd <> vsize dn).
    { intros E. apply Hm. rewrite <- E at 1. rewrite N.div_same by lia. lia. }
    apply N.eqb_neq in Hne. rewrite Hne. reflexivity.
  - intros Hm. apply N.eqb_eq in Hm. rewrite Hm. cbn [negb].
    destruct ((np =? 1) && negb (nd =? vsize dn)); [other_outcome|].
    destruct (vsize dn / nd =? 1); [other_outcome|].
    destruct (negb (vsize dn / nd =? np)); [other_outcome|].
    unfold erase_front. destruct (wrap (r * nd) <=? vsize dn); other_outcome.
Qed.

Lemma multiple_check_witness :
  getDevices (deviceConfig 0 (Some 2%Z) ["0"; "1"; "2"]) 0 2 = Abort MSG_MULTIPLE /\
  getDevices (deviceConfig 0 (Some 2%Z) ["0"; "1"; "2"]) 0 1 = Abort MSG_EQUAL /\
  getDevices (deviceConfig 0 (Some 2%Z) ["0"; "1"; "2"; "3"]) 0 2
    <> Abort MSG_MULTIPLE.
Proof.
  split; [|split].
  - apply (proj1 (multiple_check
                    (deviceConfig 0 (Some 2%Z) ["0"; "1"; "2"]) 2 [0; 1; 2] 0 2
                    ltac:(gpuPath_eval))); discriminate.
  - apply (proj1 (proj2 (multiple_check
                    (deviceConfig 0 (Some 2%Z) ["0"; "1"; "2"]) 2 [0; 1; 2] 0 1
                    ltac:(gpuPath_eval)))); [discriminate | reflexivity].
  - apply (proj2 (proj2 (multiple_check
                    (deviceConfig 0 (Some 2%Z) ["0"; "1"; "2"; "3"]) 2
                    [0; 1; 2; 3] 0 2 ltac:(gpuPath_eval)))).
    reflexivity.
Defined.

(* ================================================================= *)
(** ** The slice of a rank *)

(** C1. In the GPU path, past the multiple-of check (the size of
    [deviceNos] is an exact multiple of [numDevices]), let
    [per = len(deviceNos) / numDevices].  When [per] is not 1 the call stops
    at a fatal error unless [per = numProcesses] (past the single-process
    check, at "devices[] must either list a shared set of devices, or one
    set per MPI process"), and otherwise every rank [myRank < numProcesses]
    gets exactly the contiguous block
    [deviceNos[myRank * numDevices .. (myRank + 1) * numDevices - 1]] as GPU
    devices in that order.  When [per] is 1 every rank gets all of
    [deviceNos], unsliced. *)
Theorem per_process_slice (c : Config) (nd : N) (dn : list N) (r np : N) :
  gpuPath c nd dn ->
  let per := vsize dn / nd in
  (per <> 1 -> per <> np -> exists msg, getDevices c r np = Abort msg) /\
  ((np = 1 -> nd = vsize dn) -> nd * per = vsize dn ->
   per <> 1 -> per <> np -> getDevices c r np = Abort MSG_PER_PROCESS) /\
  (nd * per = vsize dn -> per <> 1 -> per = np -> r < np ->
     exists ds,
       getDevices c r np = Ret ds /\
       ds = map gpuId (firstn (N.to_nat nd) (skipn (N.to_nat (r * nd)) dn)) /\
       vsize ds = nd /\
       forall i, i < nd ->
         nth_error ds (N.to_nat i)
           = option_map gpuId (nth_error dn (N.to_nat (r * nd + i)))) /\
  (nd * per = vsize dn -> per = 1 ->
     getDevices c r np = Ret (map gpuId dn)).
Proof.
  intros Hp per. destruct (gpuPath_bounds _ _ _ Hp) as (Hnd & _ & Hlen).
  rewrite (getDevices_gpuPath _ _ _ _ _ Hp).
  split; [|split; [|split]].
  - intros H1 Hnp. rewrite gpuSlice_spec by assumption. fold per.
    destruct ((np =? 1) && negb (nd =? vsize dn)); [eexists; reflexivity|].
    destruct (negb (nd * per =? vsize dn)); [eexists; reflexivity|].
    apply N.eqb_neq in H1, Hnp. rewrite H1, Hnp. eexists; reflexivity.
  - intros Hpassed Hm H1 Hnp. rewrite gpuSlice_spec by assumption. fold per.
    assert (Hnp1 : np <> 1).
    { intros Hone. apply H1. apply per_process_one; try assumption.
      now apply Hpassed. }
    apply N.eqb_neq in Hnp1, H1, Hnp. apply N.eqb_eq in Hm.
    rewrite Hnp1, Hm, H1, Hnp. reflexivity.
  - intros Hm H1 Hnp Hr.
    rewrite (gpuSlice_block nd dn r np) by assumption. cbn [bind].
    assert (Hb : r * nd + nd <= vsize dn).
    { apply (slice_in_bounds nd (vsize dn) r np); try assumption.
      now rewrite <- Hnp. }
    eexists. split; [reflexivity|split; [reflexivity|split]].
    + rewrite vsize_map. now apply block_vsize.
    + intros i Hi. rewrite nth_error_map. f_equal.
      rewrite block_nth by lia. f_equal. lia.
  - intros Hm H1. rewrite gpuSlice_spec by assumption. fold per.
    assert (Hnd' : nd = vsize dn) by (apply per_process_one; assumption).
    apply N.eqb_eq in Hm, H1, Hnd'. rewrite Hm, H1, Hnd'.
    now rewrite andb_false_r.
Qed.

Lemma per_process_slice_witness :
  getDevices (deviceConfig 0 (Some 1%Z) ["0"; "1"; "2"; "3"]) 0 2
    = Abort MSG_PER_PROCESS /\
  (exists ds,
      getDevices (deviceConfig 0 (Some 2%Z) ["4"; "5"; "6"; "7"]) 1 2 = Ret ds /\
      ds = [gpuId 6; gpuId 7]) /\
  getDevices (deviceConfig 0 None ["4"; "5"]) 1 2 = Ret [gpuId 4; gpuId 5].
Proof.
  split; [|split].
  - apply (proj1 (proj2 (per_process_slice
                    (deviceConfig 0 (Some 1%Z) ["0"; "1"; "2"; "3"]) 1
                    [0; 1; 2; 3] 0 2 ltac:(gpuPath_eval))));
      [discriminate | reflexivity | discriminate | discriminate].
  - destruct (proj1 (proj2 (proj2 (per_process_slice
                    (deviceConfig 0 (Some 2%Z) ["4"; "5"; "6"; "7"]) 2
                    [4; 5; 6; 7] 1 2 ltac:(gpuPath_eval))))
                eq_refl ltac:(discriminate) eq_refl eq_refl)
      as (ds & Hret & Hds & _).
    exists ds. split; [exact Hret | exact Hds].
  - apply (proj2 (proj2 (proj2 (per_process_slice
                    (deviceConfig 0 None ["4"; "5"]) 2 [4; 5] 1 2
                    ltac:(gpuPath_eval))))); reflexivity.
Defined.

(* ================================================================= *)
(** ** One kind of device per list *)

(** C9. Whenever [getDevices] returns, the returned identifiers are all
    CPU devices or all GPU devices. *)
Theorem getDevices_one_kind (c : Config) (r np : N) (ds : list DeviceId) :
  getDevices c r np = Ret ds ->
  Forall (fun d => type d = cpu) ds \/ Forall (fun d => type d = gpu) ds.
Proof.
  unfold getDevices. intros H.
  destruct (get (T := list string) c "devices") as [da| | |];
    cbn [bind] in H; try discriminate.
  destruct (get (T := N) c "cpu-threads") as [n| | |];
    cbn [bind] in H; try discriminate.
  destruct (0 <? n).
  - left. inversion H. rewrite for_upto_push. cbn [app].
    apply Forall_map, Forall_forall. reflexivity.
  - right.
    destruct (if has c "num-devices" then get (T := N) c "num-devices" else Ret 0)
      as [nd0| | |]; cbn [bind] in H; try discriminate.
    destruct (parseDevices da) as [dn0| | |]; cbn [bind] in H; try discriminate.
    destruct (gpuDefaults nd0 dn0) as [nd dn].
    destruct (gpuSlice nd dn r np) as [out| | |]; cbn [bind] in H;
      try discriminate.
    inversion H. rewrite fold_left_push. cbn [app].
    apply Forall_map, Forall_forall. reflexivity.
Qed.

Lemma getDevices_one_kind_witness :
  Forall (fun d => type d = cpu) [cpuId 0; cpuId 1] \/
  Forall (fun d => type d = gpu) [cpuId 0; cpuId 1].
Proof.
  apply (getDevices_one_kind (deviceConfig 2 None ["5"]) 0 1 [cpuId 0; cpuId 1]).
  reflexivity.
Defined.

(* ================================================================= *)
(** ** No operation out of range *)

(** C10. In the GPU path, with every entry of [devices] read as a number
    and [myRank < numProcesses]: [numDevices] is at least 1 where the
    division takes place, so the division is defined; where the slice is
    taken, [deviceNos] has [numProcesses * numDevices] entries, the offset
    [myRank * numDevices] does not wrap and the block ends inside the
    vector, so [erase] is given a range inside it and [resize] only
    truncates; and the call returns a list or stops at one of the three
    fatal checks. *)
Theorem getDevices_gpu_in_range (c : Config) (nd : N) (dn : list N) (r np : N) :
  gpuPath c nd dn -> r < np ->
  1 <= nd /\
  udiv (vsize dn) nd = Ret (vsize dn / nd) /\
  (nd * (vsize dn / nd) = vsize dn -> vsize dn / nd <> 1 ->
   vsize dn / nd = np ->
     vsize dn = np * nd /\
     wrap (r * nd) = r * nd /\
     r * nd + nd <= vsize dn /\
     erase_front dn (wrap (r * nd)) = Ret (skipn (N.to_nat (r * nd)) dn) /\
     resize (skipn (N.to_nat (r * nd)) dn) nd
       = firstn (N.to_nat nd) (skipn (N.to_nat (r * nd)) dn)) /\
  ((exists ds, getDevices c r np = Ret ds) \/
   getDevices c r np = Abort MSG_EQUAL \/
   getDevices c r np = Abort MSG_MULTIPLE \/
   getDevices c r np = Abort MSG_PER_PROCESS).
Proof.
  intros Hp Hr. destruct (gpuPath_bounds _ _ _ Hp) as (Hnd & _ & Hlen).
  split; [exact Hnd|]. split; [|split].
  - unfold udiv. replace (nd =? 0) with false; [reflexivity|].
    symmetry. apply N.eqb_neq. lia.
  - intros Hm H1 Hnp. rewrite Hnp in Hm.
    destruct (slice_in_bounds nd (vsize dn) r np Hlen Hm Hr) as [Hw Hb].
    split; [lia|]. split; [exact Hw|]. split; [exact Hb|]. split.
    + rewrite Hw. unfold erase_front.
      replace (r * nd <=? vsize dn) with true; [reflexivity|].
      symmetry. apply N.leb_le. lia.
    + now apply resize_block.
  - rewrite (getDevices_gpuPath _ _ _ _ _ Hp), gpuSlice_spec by assumption.
    destruct ((np =? 1) && negb (nd =? vsize dn)); [right; left; reflexivity|].
    destruct (nd * (vsize dn / nd) =? vsize dn) eqn:Hm; cbn [negb];
      [|right; right; left; reflexivity].
    destruct (vsize dn / nd =? 1) eqn:H1; [left; eexists; reflexivity|].
    destruct (vsize dn / nd =? np) eqn:Hnp; cbn [negb];
      [|right; right; right; reflexivity].
    apply N.eqb_eq in Hm, Hnp. rewrite Hnp in Hm.
    destruct (slice_in_bounds nd (vsize dn) r np Hlen Hm Hr) as [Hw Hb].
    rewrite Hw. unfold erase_front.
    replace (r * nd <=? vsize dn) with true
      by (symmetry; apply N.leb_le; lia).
    left. eexists. reflexivity.
Qed.

Lemma getDevices_gpu_in_range_witness :
  (exists ds,
      getDevices (deviceConfig 0 (Some 2%Z) ["4"; "5"; "6"; "7"]) 1 2 = Ret ds) \/
  getDevices (deviceConfig 0 (Some 2%Z) ["4"; "5"; "6"; "7"]) 1 2 = Abort MSG_EQUAL \/
  getDevices (deviceConfig 0 (Some 2%Z) ["4"; "5"; "6"; "7"]) 1 2 = Abort MSG_MULTIPLE \/
  getDevices (deviceConfig 0 (Some 2%Z) ["4"; "5"; "6"; "7"]) 1 2 = Abort MSG_PER_PROCESS.
Proof.
  apply (getDevices_gpu_in_range
           (deviceConfig 0 (Some 2%Z) ["4"; "5"; "6"; "7"]) 2 [4; 5; 6; 7] 1 2
           ltac:(gpuPath_eval) eq_refl).
Defined.

(* ================================================================= *)
(** ** [override] *)

Lemma override_config (params : Document) (c : Config) :
  config_ (override params c) = assignAll params (config_ c).
Proof. reflexivity. Qed.

Lemma assignAll_app (p q d : Document) :
  assignAll (p ++ q) d = assignAll q (assignAll p d).
Proof. apply fold_left_app. Qed.

Lemma lookup_assign_same (k : string) (v : Value) (d : Document) :
  lookup k (assign k v d) = Some v.
Proof.
  induction d as [|[x w] d IH]; simpl.
  - now rewrite String.eqb_refl.
  - destruct (String.eqb x k) eqn:E; simpl; rewrite E; auto.
Qed.

Lemma lookup_assign_other (k k' : string) (v : Value) (d : Document) :
  k <> k' -> lookup k' (assign k v d) = lookup k' d.
Proof.
  intros Hne. induction d as [|[x w] d IH]; simpl.
  - apply String.eqb_neq in Hne. now rewrite Hne.
  - destruct (String.eqb x k) eqn:E; simpl.
    + apply String.eqb_eq in E. subst x.
      apply String.eqb_neq in Hne. now rewrite Hne.
    + now rewrite IH.
Qed.

Lemma keys_assign (k x : string) (v : Value) (d : Document) :
  In x (keys (assign k v d)) <-> x = k \/ In x (keys d).
Proof.
  induction d as [|[y w] d IH]; simpl.
  - intuition.
  - destruct (String.eqb y k) eqn:E; simpl.
    + apply String.eqb_eq in E. subst y. intuition.
    + rewrite IH. intuition.
Qed.

Lemma assign_twice (k : string) (v v' : Value) (d : Document) :
  assign k v (assign k v' d) = assign k v d.
Proof.
  induction d as [|[x w] d IH]; simpl.
  - now rewrite String.eqb_refl.
  - destruct (String.eqb x k) eqn:E; simpl; rewrite E; [reflexivity|].
    now rewrite IH.
Qed.

(** Two assignments to different keys commute as soon as one of the keys is
    already there (two new keys are appended in the order they come). *)
Lemma assign_comm (k k' : string) (v v' : Value) (d : Document) :
  k <> k' -> In k' (keys d) ->
  assign k' v' (assign k v d) = assign k v (assign k' v' d).
Proof.
  intros Hne. induction d as [|[x w] d IH]; simpl; intros Hin; [tauto|].
  destruct (String.eqb x k) eqn:Ek; destruct (String.eqb x k') eqn:Ek'; simpl;
    rewrite ?Ek, ?Ek'; try reflexivity.
  - apply String.eqb_eq in Ek, Ek'. congruence.
  - f_equal. apply IH. destruct Hin as [Hx|Hin]; [|exact Hin].
    apply String.eqb_neq in Ek'. contradiction.
Qed.

Lemma keys_assignAll_old (params d : Document) (x : string) :
  In x (keys d) -> In x (keys (assignAll params d)).
Proof.
  revert d. induction params as [|[k v] params IH]; intros d H; simpl; [exact H|].
  apply IH, keys_assign. now right.
Qed.

Lemma keys_assignAll_new (params d : Document) (x : string) :
  In x (keys params) -> In x (keys (assignAll params d)).
Proof.
  revert d. induction params as [|[k v] params IH]; intros d H; simpl in *; [tauto|].
  destruct H as [H|H].
  - subst x. apply keys_assignAll_old, keys_assign. now left.
  - now apply IH.
Qed.

Lemma lookup_assignAll_other (params d : Document) (k : string) :
  ~ In k (keys params) -> lookup k (assignAll params d) = lookup k d.
Proof.
  revert d. induction params as [|[x v] params IH]; intros d H; simpl in *;
    [reflexivity|].
  rewrite IH by tauto. apply lookup_assign_other. tauto.
Qed.

(** Once the keys of [params] are in the document, an assignment made before
    the loop is hidden by the same assignment made after it. *)
Lemma assign_absorbs (k : string) (v : Value) (params : Document) :
  forall d,
    (forall x, In x (keys params) -> In x (keys d)) ->
    assign k v (assignAll params (assign k v d)) = assign k v (assignAll params d).
Proof.
  induction params as [|[x w] params IH]; intros d Hin; simpl.
  - apply assign_twice.
  - destruct (String.eqb x k) eqn:E.
    + apply String.eqb_eq in E. subst x. now rewrite assign_twice.
    + apply String.eqb_neq in E.
      rewrite assign_comm; [|congruence|apply Hin; now left].
      apply IH. intros y Hy. apply keys_assign. right. apply Hin. now right.
Qed.

Lemma assignAll_idempotent (params d : Document) :
  assignAll params (assignAll params d) = assignAll params d.
Proof.
  induction params as [|[k v] params IH] using rev_ind; [reflexivity|].
  rewrite !assignAll_app. simpl.
  rewrite assign_absorbs.
  - now rewrite IH.
  - intros x Hx. now apply keys_assignAll_new.
Qed.

(** C6. [override(doc)] gives every key of [doc] the value [doc] has for it
    (the last one, should [doc] name the key twice), whole, whatever the
    store held for that key; it leaves the keys that [doc] does not name as
    they were; and applying it twice is the same as applying it once. *)
Theorem override_replaces_and_is_idempotent (doc : Document) (s : Config) :
  (forall front k v back,
      doc = front ++ (k, v) :: back -> ~ In k (keys back) ->
      lookup k (config_ (override doc s)) = Some v) /\
  (forall k,
      ~ In k (keys doc) ->
      lookup k (config_ (override doc s)) = lookup k (config_ s)) /\
  override doc (override doc s) = override doc s.
Proof.
  split; [|split].
  - intros front k v back Hdoc Hk. subst doc.
    rewrite override_config, assignAll_app. simpl.
    rewrite lookup_assignAll_other by exact Hk.
    apply lookup_assign_same.
  - intros k Hk. rewrite override_config. now apply lookup_assignAll_other.
  - unfold override. f_equal. apply assignAll_idempotent.
Qed.

Lemma override_replaces_and_is_idempotent_witness :
  let s := {| config_ := [("dim", VDoc [("emb", VInt 512); ("rnn", VInt 1024)]);
                          ("seed", VInt 1)] |} in
  let doc := [("dim", VDoc [("emb", VInt 256)]); ("version", VStr "v1.7.0")] in
  lookup "dim" (config_ (override doc s)) = Some (VDoc [("emb", VInt 256)]) /\
  lookup "seed" (config_ (override doc s)) = lookup "seed" (config_ s) /\
  override doc (override doc s) = override doc s.
Proof.
  intros s doc.
  pose proof (override_replaces_and_is_idempotent doc s) as (Hset & Hkeep & Hidem).
  split; [|split].
  - apply (Hset [] "dim" (VDoc [("emb", VInt 256)]) [("version", VStr "v1.7.0")]).
    + reflexivity.
    + simpl. intros [H|[]]. discriminate H.
  - apply Hkeep. simpl. intros [H|[H|[]]]; discriminate H.
  - exact Hidem.
Defined.

(* ================================================================= *)
(** ** Logging in [initialize] *)

Lemma emit_nil (w : World) : emit w [] = w.
Proof. destruct w. unfold emit. simpl. now rewrite app_nil_r. Qed.

Lemma emit_emit (w : World) (es fs : list LogEntry) :
  emit (emit w es) fs = emit w (es ++ fs).
Proof. unfold emit. simpl. now rewrite app_assoc. Qed.

Lemma LOG_emit (fmt : string) (a : list string) (w : World) :
  LOG info fmt a w = (Ret tt, emit w [entry fmt a]).
Proof. reflexivity. Qed.

Lemma log_emit (OutputYaml : Document -> list string) (w : World) :
  log OutputYaml w
    = (Ret tt,
       emit w (map (fun r => entry "[config] {}" [r])
                   (OutputYaml (config_ (this w))))).
Proof.
  unfold log. generalize (OutputYaml (config_ (this w))) as lines.
  intros lines. revert w. induction lines as [|r lines IH]; intros w.
  - simpl. unfold mret. now rewrite emit_nil.
  - simpl. unfold mbind. rewrite LOG_emit, IH, emit_emit. reflexivity.
Qed.

(** What the version block does, case by case. *)
Lemma logVersion_present (P : string) (mode : cli.mode) (w : World) (v : string) :
  get (T := string) (this w) "version" = Ret v ->
  logVersion P mode w
    = (Ret tt,
       emit w [if cli.eqb mode cli.training && negb (String.eqb v P)
               then entry MSG_UPGRADE [v; P] else entry MSG_LOADED [v]]).
Proof.
  intros Hv. unfold logVersion, mbind, lift.
  assert (Hh : has (this w) "version" = true).
  { unfold has. unfold get in Hv.
    destruct (lookup "version" (config_ (this w))); [reflexivity|discriminate]. }
  rewrite Hh, Hv.
  destruct (cli.eqb mode cli.training && negb (String.eqb v P)); reflexivity.
Qed.

Lemma logVersion_absent (P : string) (mode : cli.mode) (w : World) :
  has (this w) "version" = false ->
  logVersion P mode w
    = (Ret tt,
       emit w (if cli.eqb mode cli.training then [entry MSG_CREATED [P]] else [])).
Proof.
  intros Hh. unfold logVersion, mbind, lift. rewrite Hh.
  destruct (cli.eqb mode cli.training); [reflexivity|].
  unfold mret. now rewrite emit_nil.
Qed.

Lemma cli_eqb_eq (a b : cli.mode) : cli.eqb a b = true <-> a = b.
Proof. destruct a, b; simpl; split; intros H; congruence. Qed.

Lemma cli_eqb_neq (a b : cli.mode) : cli.eqb a b = false <-> a <> b.
Proof. destruct a, b; simpl; split; intros H; congruence. Qed.

(** C7, as the code has it.  With ['version'] present: the upgrade message
    when the mode is training and the version differs from the build's;
    otherwise the "has been created with Marian X" message, that is, when the
    versions are equal and also whenever the mode is not training.  With
    ['version'] absent: the "is being created with Marian X" message in
    training, and no message in any other mode. *)
Theorem version_messages (P : string) (mode : cli.mode) (w : World) :
  (forall v,
      get (T := string) (this w) "version" = Ret v ->
      (mode = cli.training -> v <> P ->
         logVersion P mode w = (Ret tt, emit w [entry MSG_UPGRADE [v; P]])) /\
      (v = P ->
         logVersion P mode w = (Ret tt, emit w [entry MSG_LOADED [v]])) /\
      (mode <> cli.training ->
         logVersion P mode w = (Ret tt, emit w [entry MSG_LOADED [v]]))) /\
  (has (this w) "version" = false ->
      (mode = cli.training ->
         logVersion P mode w = (Ret tt, emit w [entry MSG_CREATED [P]])) /\
      (mode <> cli.training -> logVersion P mode w = (Ret tt, w))).
Proof.
  split.
  - intros v Hv. rewrite (logVersion_present P mode w v Hv).
    split; [|split].
    + intros Hm Hne. apply cli_eqb_eq in Hm. apply String.eqb_neq in Hne.
      now rewrite Hm, Hne.
    + intros He. apply String.eqb_eq in He. now rewrite He, andb_false_r.
    + intros Hm. apply cli_eqb_neq in Hm. now rewrite Hm.
  - intros Hh. rewrite (logVersion_absent P mode w Hh). split.
    + intros Hm. apply cli_eqb_eq in Hm. now rewrite Hm.
    + intros Hm. apply cli_eqb_neq in Hm. rewrite Hm. now rewrite emit_nil.
Qed.

Lemma version_messages_witness :
  logVersion "v1.1.0" cli.training (loadedWorld "v1.0.0")
    = (Ret tt, emit (loadedWorld "v1.0.0")
                 [entry MSG_UPGRADE ["v1.0.0"; "v1.1.0"]]) /\
  logVersion "v1.1.0" cli.scoring (loadedWorld "v1.0.0")
    = (Ret tt, emit (loadedWorld "v1.0.0") [entry MSG_LOADED ["v1.0.0"]]).
Proof.
  split.
  - apply (proj1 (proj1 (version_messages "v1.1.0" cli.training
                           (loadedWorld "v1.0.0")) "v1.0.0" eq_refl));
      [reflexivity | discriminate].
  - apply (proj2 (proj2 (proj1 (version_messages "v1.1.0" cli.scoring
                                  (loadedWorld "v1.0.0")) "v1.0.0" eq_refl)));
      discriminate.
Defined.

(** C7 as stated fails: a model of another version loaded for translation
    still gets the "has been created with Marian X" message. *)
Lemma version_messages_counterexample :
  ~ (forall (P : string) (mode : cli.mode) (w : World) (v : string),
        get (T := string) (this w) "version" = Ret v ->
        v <> P -> mode <> cli.training ->
        logged (snd (logVersion P mode w)) = logged w).
Proof.
  intros H.
  specialize (H "v1.1.0" cli.translation (loadedWorld "v1.0.0") "v1.0.0"
                eq_refl ltac:(discriminate) ltac:(discriminate)).
  discriminate H.
Qed.

(* ================================================================= *)
(** ** A model file without settings *)

Section MissingModelConfig.

Variable file_exists : string -> bool.
Variable getYamlFromModel : string -> Result Document.

Lemma guarded_load_recovers (w : World) (model : string) (e : Exn) :
  getYamlFromModel model = Throw e -> is_runtime_error e = true ->
  get (T := bool) (this w) "ignore-model-config" = Ret false ->
  try_catch_runtime_error
    (do ignore <- lift (fun c => get (T := bool) c "ignore-model-config");
     if negb ignore then loadModelParameters getYamlFromModel model
     else mret tt)
    (LOG info MSG_NO_MODEL_CONFIG []) w
  = (Ret tt, emit w [entry MSG_NO_MODEL_CONFIG []]).
Proof.
  intros Hload Hrt Hign.
  unfold try_catch_runtime_error, mbind, lift, loadModelParameters.
  rewrite Hign. cbn [negb]. unfold mbind, lift. rewrite Hload, Hrt.
  apply LOG_emit.
Qed.

Lemma loadModel_recovers (w : World) (mode : cli.mode) (model : string) (e : Exn) :
  getYamlFromModel model = Throw e -> is_runtime_error e = true ->
  reachesLoader file_exists (this w) mode model ->
  loadModel file_exists getYamlFromModel mode w
    = (Ret tt, emit w [entry MSG_NO_MODEL_CONFIG []]).
Proof.
  intros Hload Hrt [Hign [(Hmode & Hmodel & Hex & Hnr) | (Hmode & rest & Hmodels)]].
  - unfold loadModel. apply cli_eqb_neq in Hmode. rewrite Hmode. cbn [negb].
    unfold mbind at 1. unfold lift at 1. rewrite Hmodel, Hex.
    unfold mbind at 1. unfold mbind at 1. unfold lift at 1. rewrite Hnr.
    unfold mret. cbn [negb].
    now apply (guarded_load_recovers w model e).
  - unfold loadModel. subst mode. cbn [cli.eqb negb].
    unfold mbind at 1. unfold lift at 1. rewrite Hmodels.
    unfold mbind at 1.
    now apply (guarded_load_recovers w model e).
Qed.

End MissingModelConfig.

(** C8. When [initialize] calls the loader and the loader throws a
    [std::runtime_error] for want of a settings fragment, the error is caught
    where it is thrown: the load block returns, the store is the parser's,
    untouched, and the log gets the line "[config] No model configuration
    found in model file"; [initialize] as a whole returns too.  This holds
    in the training (non-translation) path and in the translation path. *)
Theorem model_config_absence_recovered
    (parsed : Document) (time0 : N) (file_exists : string -> bool)
    (getYamlFromModel : string -> Result Document)
    (OutputYaml : Document -> list string) (P : string)
    (mode : cli.mode) (w0 : World) (model : string) (e : Exn) :
  let c := {| config_ := parsed |} in
  getYamlFromModel model = Throw e -> is_runtime_error e = true ->
  reachesLoader file_exists c mode model ->
  (forall w, this w = c ->
     loadModel file_exists getYamlFromModel mode w
       = (Ret tt, emit w [entry MSG_NO_MODEL_CONFIG []])) /\
  (forall s,
     get (T := N) c "seed" = Ret s -> has c "version" = false ->
     initialize parsed time0 file_exists getYamlFromModel OutputYaml P mode w0
       = (Ret tt,
          {| this := c;
             seed := if s =? 0 then time0 else s;
             logged :=
               logged w0
               ++ [entry MSG_NO_MODEL_CONFIG []]
               ++ map (fun r => entry "[config] {}" [r]) (OutputYaml parsed)
               ++ (if cli.eqb mode cli.training then [entry MSG_CREATED [P]]
                   else []) |})).
Proof.
  intros c Hload Hrt Hreach.
  assert (Hblock : forall w, this w = c ->
            loadModel file_exists getYamlFromModel mode w
              = (Ret tt, emit w [entry MSG_NO_MODEL_CONFIG []])).
  { intros w Hw. apply (loadModel_recovers _ _ w mode model e); try assumption.
    now rewrite Hw. }
  split; [exact Hblock|]. intros s Hseed Hver.
  unfold initialize. unfold mbind at 1. unfold set_config at 1.
  unfold mbind at 1.
  assert (Hs : setSeed time0
                 {| this := c; seed := seed w0; logged := logged w0 |}
               = (Ret tt, {| this := c; seed := if s =? 0 then time0 else s;
                             logged := logged w0 |})).
  { unfold setSeed, mbind, lift. cbn [this]. rewrite Hseed.
    destruct (s =? 0); [reflexivity|].
    change (this {| this := c; seed := seed w0; logged := logged w0 |}) with c.
    now rewrite Hseed. }
  fold c. rewrite Hs. unfold mbind at 1. rewrite Hblock by reflexivity.
  unfold mbind at 1. rewrite log_emit.
  rewrite logVersion_absent by exact Hver.
  unfold emit. cbn [this seed logged config_]. f_equal. f_equal.
  now rewrite <- !app_assoc.
Qed.

Lemma model_config_absence_recovered_witness :
  initialize trainingSettings 42 (fun _ => true)
      (fun _ => Throw (RuntimeError "no special:model.yml"))
      (fun _ => []) "v1.7.0" cli.training startWorld
    = (Ret tt,
       {| this := {| config_ := trainingSettings |}; seed := 42;
          logged := [entry MSG_NO_MODEL_CONFIG []; entry MSG_CREATED ["v1.7.0"]] |}) /\
  initialize translationSettings 42 (fun _ => false)
      (fun _ => Throw (RuntimeError "no special:model.yml"))
      (fun _ => []) "v1.7.0" cli.translation startWorld
    = (Ret tt,
       {| this := {| config_ := translationSettings |}; seed := 1111;
          logged := [entry MSG_NO_MODEL_CONFIG []] |}).
Proof.
  split.
  - assert (Hr : reachesLoader (fun _ => true) {| config_ := trainingSettings |}
                   cli.training "model.npz").
    { split; [reflexivity|].
      left. repeat split; try reflexivity. discriminate. }
    exact (proj2 (model_config_absence_recovered trainingSettings 42
                    (fun _ => true)
                    (fun _ => Throw (RuntimeError "no special:model.yml"))
                    (fun _ => []) "v1.7.0" cli.training startWorld
                    "model.npz" (RuntimeError "no special:model.yml")
                    eq_refl eq_refl Hr) 0 eq_refl eq_refl).
  - assert (Hr : reachesLoader (fun _ => false)
                   {| config_ := translationSettings |}
                   cli.translation "model.npz").
    { split; [reflexivity|].
      right. split; [reflexivity|]. exists ["other.npz"]. reflexivity. }
    exact (proj2 (model_config_absence_recovered translationSettings 42
                    (fun _ => false)
                    (fun _ => Throw (RuntimeError "no special:model.yml"))
                    (fun _ => []) "v1.7.0" cli.translation startWorld
                    "model.npz" (RuntimeError "no special:model.yml")
                    eq_refl eq_refl Hr) 1111 eq_refl eq_refl).
Defined.

(* ================================================================= *)
(** ** The examples of the comment above [getDevices] *)

Example cpu_threads_8 :
  getDevices (deviceConfig 8 None []) 0 1 = Ret (map cpuId [0; 1; 2; 3; 4; 5; 6; 7]).
Proof. reflexivity. Qed.

Example no_option_given :
  getDevices (deviceConfig 0 None []) 0 1 = Ret [gpuId 0].
Proof. reflexivity. Qed.

Example num_devices_1 :
  getDevices (deviceConfig 0 (Some 1%Z) []) 0 1 = Ret [gpuId 0].
Proof. reflexivity. Qed.

Example devices_2 :
  getDevices (deviceConfig 0 None ["2"]) 0 1 = Ret [gpuId 2].
Proof. reflexivity. Qed.

Example num_devices_4 :
  getDevices (deviceConfig 0 (Some 4%Z) []) 0 1 = Ret (map gpuId [0; 1; 2; 3]).
Proof. reflexivity. Qed.

Example devices_4_5_6_7 :
  getDevices (deviceConfig 0 None ["4"; "5"; "6"; "7"]) 0 1
    = Ret (map gpuId [4; 5; 6; 7]).
Proof. reflexivity. Qed.

Example shared_across_processes :
  getDevices (deviceConfig 0 None ["4"; "5"; "6"; "7"]) 2 3
    = Ret (map gpuId [4; 5; 6; 7]).
Proof. reflexivity. Qed.

Example eight_processes_one_device_each :
  map (fun rank =>
         getDevices
           (deviceConfig 0 (Some 1%Z) ["0"; "1"; "2"; "3"; "4"; "5"; "6"; "7"])
           rank 8)
      [0; 1; 2; 3; 4; 5; 6; 7]
    = map (fun rank => Ret [gpuId rank]) [0; 1; 2; 3; 4; 5; 6; 7].
Proof. reflexivity. Qed.

Example two_processes_four_devices_each :
  getDevices
    (deviceConfig 0 (Some 4%Z) ["0"; "1"; "2"; "3"; "4"; "5"; "6"; "7"]) 0 2
    = Ret (map gpuId [0; 1; 2; 3]) /\
  getDevices
    (deviceConfig 0 (Some 4%Z) ["0"; "1"; "2"; "3"; "4"; "5"; "6"; "7"]) 1 2
    = Ret (map gpuId [4; 5; 6; 7]).
Proof. split; reflexivity. Qed.

Example neither_shared_nor_per_process :
  getDevices (deviceConfig 0 (Some 1%Z) ["0"; "1"; "2"; "3"]) 0 2
    = Abort MSG_PER_PROCESS.
Proof. reflexivity. Qed.

Example device_not_a_number :
  getDevices (deviceConfig 0 None ["gpu0"]) 0 1 = Throw InvalidArgument.
Proof. reflexivity. Qed.

Example nested_value_replaced_whole :
  override [("dim", VDoc [("emb", VInt 256)])]
           {| config_ := [("dim", VDoc [("emb", VInt 512); ("rnn", VInt 1024)]);
                          ("seed", VInt 1)] |}
    = {| config_ := [("dim", VDoc [("emb", VInt 256)]); ("seed", VInt 1)] |}.
Proof. reflexivity. Qed.

(* ================================================================= *)
(** * Further properties of [getDevices] *)

Lemma resize_vsize (v : list N) (n : N) : vsize (resize v n) = n.
Proof.
  unfold vsize, resize. rewrite length_app, length_firstn, repeat_length. lia.
Qed.

Lemma gpuDefaults_positive (nd0 : N) (dn0 : list N) (nd : N) (dn : list N) :
  gpuDefaults nd0 dn0 = (nd, dn) -> 1 <= nd /\ dn <> [].
Proof.
  unfold gpuDefaults. destruct dn0 as [|d dn0].
  - rewrite for_upto_push. cbn [app]. intros H. inversion H. subst.
    assert (Hpos : 1 <= (if nd0 =? 0 then 1 else nd0)).
    { destruct (nd0 =? 0) eqn:E; [lia|]. apply N.eqb_neq in E. lia. }
    split; [exact Hpos|].
    destruct (N.to_nat (if nd0 =? 0 then 1 else nd0)) eqn:E; [lia|].
    discriminate.
  - destruct (nd0 =? 0) eqn:E; intros H; inversion H; subst.
    + split; [unfold vsize; cbn [List.length]; lia | discriminate].
    + apply N.eqb_neq in E. split; [lia | discriminate].
Qed.

(** What [gpuSlice] hands back is the whole vector or a vector resized to
    [numDevices]. *)
Lemma gpuSlice_returns (nd : N) (dn : list N) (r np : N) (out : list N) :
  gpuSlice nd dn r np = Ret out ->
  out = dn \/ exists rest, out = resize rest nd.
Proof.
  unfold gpuSlice, udiv, ABORT_IF, erase_front.
  destruct (if np =? 1 then if negb (nd =? vsize dn) then Abort MSG_EQUAL
                             else Ret tt else Ret tt);
    cbn [bind]; try discriminate.
  destruct (nd =? 0); cbn [bind]; try discriminate.
  destruct (negb (wrap (nd * (vsize dn / nd)) =? vsize dn)); cbn [bind];
    try discriminate.
  destruct (negb (vsize dn / nd =? 1)).
  - destruct (negb (vsize dn / nd =? np)); cbn [bind]; try discriminate.
    destruct (wrap (r * nd) <=? vsize dn); cbn [bind]; try discriminate.
    intros H. inversion H. right. eexists. reflexivity.
  - intros H. inversion H. now left.
Qed.

(** X1. Whenever [getDevices] returns, it returns at least one device. *)
Theorem getDevices_nonempty (c : Config) (r np : N) (ds : list DeviceId) :
  getDevices c r np = Ret ds -> ds <> [].
Proof.
  unfold getDevices. intros H.
  destruct (get (T := list string) c "devices") as [da| | |];
    cbn [bind] in H; try discriminate.
  destruct (get (T := N) c "cpu-threads") as [n| | |];
    cbn [bind] in H; try discriminate.
  destruct (0 <? n) eqn:Hn.
  - inversion H. rewrite for_upto_push. cbn [app].
    apply N.ltb_lt in Hn. destruct (N.to_nat n) eqn:E; [lia|]. discriminate.
  - destruct (if has c "num-devices" then get (T := N) c "num-devices" else Ret 0)
      as [nd0| | |]; cbn [bind] in H; try discriminate.
    destruct (parseDevices da) as [dn0| | |]; cbn [bind] in H; try discriminate.
    destruct (gpuDefaults nd0 dn0) as [nd dn] eqn:Hg.
    apply gpuDefaults_positive in Hg. destruct Hg as [Hnd Hdn].
    destruct (gpuSlice nd dn r np) as [out| | |] eqn:Hs; cbn [bind] in H;
      try discriminate.
    inversion H. rewrite fold_left_push. cbn [app].
    apply gpuSlice_returns in Hs. destruct Hs as [Hs|[rest Hs]]; subst out.
    + destruct dn; [congruence|discriminate].
    + intros Hnil. apply (f_equal (@vsize DeviceId)) in Hnil.
      rewrite vsize_map, resize_vsize in Hnil. unfold vsize in Hnil.
      cbn [List.length] in Hnil. lia.
Qed.

Lemma getDevices_nonempty_witness : [gpuId 5] <> [].
Proof.
  apply (getDevices_nonempty (deviceConfig 0 (Some 1%Z) ["4"; "5"]) 1 2 [gpuId 5]).
  reflexivity.
Defined.

(** X2. In the GPU path every list [getDevices] returns has exactly
    [numDevices] entries, whatever the rank. *)
Theorem getDevices_gpu_count (c : Config) (nd : N) (dn : list N) (r np : N)
    (ds : list DeviceId) :
  gpuPath c nd dn -> getDevices c r np = Ret ds -> vsize ds = nd.
Proof.
  intros Hp. destruct (gpuPath_bounds _ _ _ Hp) as (Hnd & _ & Hlen).
  rewrite (getDevices_gpuPath _ _ _ _ _ Hp).
  destruct (gpuSlice nd dn r np) as [out| | |] eqn:Hs; cbn [bind];
    try discriminate.
  intros H. inversion H. rewrite vsize_map.
  pose proof Hs as Hs'. apply gpuSlice_returns in Hs'.
  destruct Hs' as [Hout|[rest Hout]]; subst out; [|apply resize_vsize].
  rewrite gpuSlice_spec in Hs by assumption.
  destruct ((np =? 1) && negb (nd =? vsize dn)); [discriminate|].
  destruct (nd * (vsize dn / nd) =? vsize dn) eqn:Hm; cbn [negb] in Hs;
    [|discriminate].
  apply N.eqb_eq in Hm.
  destruct (vsize dn / nd =? 1) eqn:Hone.
  - apply N.eqb_eq in Hone. symmetry. now apply per_process_one.
  - destruct (negb (vsize dn / nd =? np)); [discriminate|].
    unfold erase_front in Hs.
    destruct (wrap (r * nd) <=? vsize dn); cbn [bind] in Hs; [|discriminate].
    inversion Hs as [Hr]. rewrite <- Hr at 1. apply resize_vsize.
Qed.

Lemma getDevices_gpu_count_witness :
  vsize [gpuId 6; gpuId 7] = 2.
Proof.
  apply (getDevices_gpu_count (deviceConfig 0 (Some 2%Z) ["4"; "5"; "6"; "7"])
           2 [4; 5; 6; 7] 1 2 [gpuId 6; gpuId 7] ltac:(gpuPath_eval)).
  reflexivity.
Defined.

Lemma per_process_count (nd np len : N) :
  1 <= nd -> len = np * nd -> len / nd = np.
Proof. intros Hnd H. subst len. apply N.div_mul. lia. Qed.

(** X3. Which device lists the GPU path accepts: for a rank below the number of
    processes the call returns exactly when [deviceNos] has [numDevices]
    entries (one shared set) or [numProcesses * numDevices] entries (one set
    per process). *)
Theorem getDevices_gpu_accepts (c : Config) (nd : N) (dn : list N) (r np : N) :
  gpuPath c nd dn -> r < np ->
  ((exists ds, getDevices c r np = Ret ds) <->
   (vsize dn = nd \/ vsize dn = np * nd)).
Proof.
  intros Hp Hr. destruct (gpuPath_bounds _ _ _ Hp) as (Hnd & _ & Hlen).
  rewrite (getDevices_gpuPath _ _ _ _ _ Hp), gpuSlice_spec by assumption.
  split.
  - intros [ds H].
    destruct ((np =? 1) && negb (nd =? vsize dn)); [discriminate|].
    destruct (nd * (vsize dn / nd) =? vsize dn) eqn:Hm; cbn [negb] in H;
      [|discriminate].
    apply N.eqb_eq in Hm.
    destruct (vsize dn / nd =? 1) eqn:Hone.
    + apply N.eqb_eq in Hone. left. symmetry. now apply per_process_one.
    + destruct (vsize dn / nd =? np) eqn:Hnp; cbn [negb] in H; [|discriminate].
      apply N.eqb_eq in Hnp. right. rewrite <- Hnp. lia.
  - intros [Hsame|Hall].
    + assert (Hper : vsize dn / nd = 1) by (rewrite Hsame; apply N.div_same; lia).
      rewrite Hper, N.mul_1_r. symmetry in Hsame.
      apply N.eqb_eq in Hsame. rewrite Hsame.
      rewrite andb_false_r. cbn [negb]. change (1 =? 1) with true.
      eexists. reflexivity.
    + pose proof (per_process_count nd np (vsize dn) Hnd Hall) as Hper.
      rewrite Hper.
      assert (Hm : nd * np = vsize dn) by lia.
      destruct (slice_in_bounds nd (vsize dn) r np Hlen Hm Hr) as [Hw Hb].
      destruct (np =? 1) eqn:Hnp1.
      * apply N.eqb_eq in Hnp1. subst np.
        replace (nd =? vsize dn) with true by (symmetry; apply N.eqb_eq; lia).
        cbn [negb andb]. apply N.eqb_eq in Hm. rewrite Hm. cbn [negb].
        eexists. reflexivity.
      * cbn [andb]. apply N.eqb_eq in Hm. rewrite Hm. cbn [negb].
        rewrite N.eqb_refl. cbn [negb]. rewrite Hw. unfold erase_front.
        replace (r * nd <=? vsize dn) with true
          by (symmetry; apply N.leb_le; lia).
        eexists. reflexivity.
Qed.

Lemma getDevices_gpu_accepts_witness :
  (exists ds,
      getDevices (deviceConfig 0 (Some 2%Z) ["4"; "5"; "6"; "7"]) 1 2 = Ret ds) <->
  (vsize [4; 5; 6; 7] = 2 \/ vsize [4; 5; 6; 7] = 2 * 2).
Proof.
  apply (getDevices_gpu_accepts (deviceConfig 0 (Some 2%Z) ["4"; "5"; "6"; "7"])
           2 [4; 5; 6; 7] 1 2 ltac:(gpuPath_eval) eq_refl).
Defined.

(** X4. The rank is not checked.  With one set of devices per process, the rank
    [numProcesses] (one past the last) erases the whole vector and [resize]
    fills it again: the call returns [numDevices] devices, all with index 0.
    A larger rank hands [erase] a range outside the vector. *)
Theorem getDevices_rank_unchecked (c : Config) (nd : N) (dn : list N) (np : N) :
  gpuPath c nd dn -> vsize dn = np * nd -> np <> 1 ->
  getDevices c np np = Ret (repeat (gpuId 0) (N.to_nat nd)) /\
  (forall r, np < r -> r * nd < SIZE_MOD ->
     getDevices c r np = Undefined "erase: iterator range outside the vector").
Proof.
  intros Hp Hall Hnp. destruct (gpuPath_bounds _ _ _ Hp) as (Hnd & _ & Hlen).
  pose proof (per_process_count nd np (vsize dn) Hnd Hall) as Hper.
  assert (Hm : nd * np = vsize dn) by lia.
  assert (Hstart : forall r,
             gpuSlice nd dn r np
               = (rest <- erase_front dn (wrap (r * nd)) ;; Ret (resize rest nd))).
  { intros r. rewrite gpuSlice_spec by assumption. rewrite Hper.
    apply N.eqb_neq in Hnp. rewrite Hnp. cbn [andb].
    apply N.eqb_eq in Hm. rewrite Hm. cbn [negb].
    now rewrite N.eqb_refl. }
  split.
  - rewrite (getDevices_gpuPath _ _ _ _ _ Hp), Hstart.
    unfold wrap. rewrite N.mod_small by lia. unfold erase_front.
    replace (np * nd <=? vsize dn) with true by (symmetry; apply N.leb_le; lia).
    cbn [bind]. rewrite skipn_all2 by (unfold vsize in Hall; lia).
    unfold resize. rewrite firstn_nil. cbn [app List.length].
    rewrite Nat.sub_0_r, map_repeat. reflexivity.
  - intros r Hr Hsmall.
    rewrite (getDevices_gpuPath _ _ _ _ _ Hp), Hstart.
    unfold wrap. rewrite N.mod_small by exact Hsmall. unfold erase_front.
    replace (r * nd <=? vsize dn) with false; [reflexivity|].
    symmetry. apply N.leb_gt. nia.
Qed.

Lemma getDevices_rank_unchecked_witness :
  getDevices (deviceConfig 0 (Some 2%Z) ["4"; "5"; "6"; "7"]) 2 2
    = Ret [gpuId 0; gpuId 0] /\
  getDevices (deviceConfig 0 (Some 2%Z) ["4"; "5"; "6"; "7"]) 3 2
    = Undefined "erase: iterator range outside the vector".
Proof.
  pose proof (getDevices_rank_unchecked
                (deviceConfig 0 (Some 2%Z) ["4"; "5"; "6"; "7"]) 2 [4; 5; 6; 7] 2
                ltac:(gpuPath_eval) eq_refl ltac:(discriminate)) as [H0 Hbig].
  split; [exact H0|]. apply Hbig; reflexivity.
Defined.

Lemma firstn_add_skipn {A : Type} (a b : nat) :
  forall l : list A, firstn (a + b) l = firstn a l ++ firstn b (skipn a l).
Proof.
  induction a as [|a IH]; intros l; [reflexivity|].
  destruct l as [|x l]; simpl.
  - now rewrite firstn_nil.
  - now rewrite IH.
Qed.

Lemma blocks_concat {A : Type} (n k : nat) (l : list A) :
  List.concat (map (fun j => firstn n (skipn (j * n) l)) (seq 0 k))
    = firstn (k * n) l.
Proof.
  induction k as [|k IH]; [reflexivity|].
  rewrite seq_S, map_app, concat_app, IH. cbn [map List.concat].
  rewrite app_nil_r. replace (S k * n)%nat with (k * n + n)%nat by lia.
  symmetry. apply firstn_add_skipn.
Qed.

(** X5. With one set of devices per process (or one shared set for a single
    process), the lists of the ranks [0 .. numProcesses-1], one after the
    other, are [deviceNos] itself: every listed device goes to exactly one
    rank, in the order of the list. *)
Theorem getDevices_slices_partition (c : Config) (nd : N) (dn : list N) (np : N) :
  gpuPath c nd dn -> vsize dn = np * nd ->
  exists slices : list (list DeviceId),
    List.length slices = N.to_nat np /\
    (forall r ds,
        nth_error slices (N.to_nat r) = Some ds -> getDevices c r np = Ret ds) /\
    List.concat slices = map gpuId dn.
Proof.
  intros Hp Hall. destruct (gpuPath_bounds _ _ _ Hp) as (Hnd & _ & Hlen).
  pose proof (per_process_count nd np (vsize dn) Hnd Hall) as Hper.
  assert (Hm : nd * np = vsize dn) by lia.
  exists (map (fun j => map gpuId (firstn (N.to_nat nd)
                                     (skipn (j * N.to_nat nd) dn)))
              (seq 0 (N.to_nat np))).
  split; [now rewrite length_map, length_seq|]. split.
  - intros r ds Hnth.
    assert (Hr : r < np).
    { assert (Hsome : nth_error
                        (map (fun j => map gpuId (firstn (N.to_nat nd)
                                            (skipn (j * N.to_nat nd) dn)))
                             (seq 0 (N.to_nat np))) (N.to_nat r) <> None)
        by congruence.
      apply nth_error_Some in Hsome.
      rewrite length_map, length_seq in Hsome. lia. }
    rewrite nth_error_map in Hnth.
    rewrite nth_error_seq in Hnth.
    replace (N.to_nat r <? N.to_nat np)%nat with true in Hnth
      by (symmetry; apply Nat.ltb_lt; lia).
    cbn [option_map Nat.add] in Hnth. inversion Hnth as [Hds]. clear Hnth Hds.
    rewrite (getDevices_gpuPath _ _ _ _ _ Hp).
    replace (N.to_nat r * N.to_nat nd)%nat with (N.to_nat (r * nd)) by lia.
    destruct (N.eq_dec np 1) as [Hone|Hmany].
    + assert (r = 0) by lia. subst r.
      rewrite gpuSlice_spec by assumption. rewrite Hper.
      replace (nd =? vsize dn) with true by (symmetry; apply N.eqb_eq; lia).
      rewrite andb_false_r. apply N.eqb_eq in Hm. rewrite Hm. cbn [negb].
      replace (np =? 1) with true by (symmetry; apply N.eqb_eq; exact Hone).
      cbn [bind].
      rewrite N.mul_0_l. cbn [N.to_nat skipn].
      rewrite firstn_all2; [reflexivity|]. unfold vsize in Hall. lia.
    + rewrite (gpuSlice_block nd dn r np) by congruence. reflexivity.
  - rewrite <- (map_map (fun j => firstn (N.to_nat nd) (skipn (j * N.to_nat nd) dn))
                        (map gpuId)).
    rewrite <- concat_map, blocks_concat.
    rewrite firstn_all2; [reflexivity|]. unfold vsize in Hall. lia.
Qed.

Lemma getDevices_slices_partition_witness :
  exists slices : list (list DeviceId),
    List.length slices = N.to_nat 2 /\
    (forall r ds,
        nth_error slices (N.to_nat r) = Some ds ->
        getDevices (deviceConfig 0 (Some 2%Z) ["4"; "5"; "6"; "7"]) r 2 = Ret ds) /\
    List.concat slices = map gpuId [4; 5; 6; 7].
Proof.
  apply (getDevices_slices_partition
           (deviceConfig 0 (Some 2%Z) ["4"; "5"; "6"; "7"]) 2 [4; 5; 6; 7] 2
           ltac:(gpuPath_eval) eq_refl).
Defined.

(** X6. The [devices] key is read before anything else: without it the call
    throws, in CPU mode as well; [cpu-threads] is read next and has no
    default either. *)
Theorem getDevices_mandatory_keys (c : Config) (r np : N) :
  (has c "devices" = false ->
     getDevices c r np = Throw (YamlInvalidNode "devices")) /\
  (forall devicesArg,
      get (T := list string) c "devices" = Ret devicesArg ->
      has c "cpu-threads" = false ->
      getDevices c r np = Throw (YamlInvalidNode "cpu-threads")).
Proof.
  split.
  - unfold has, getDevices, get.
    destruct (lookup "devices" (config_ c)); [discriminate|reflexivity].
  - intros da Hd. unfold getDevices. rewrite Hd. cbn [bind].
    unfold has, get.
    destruct (lookup "cpu-threads" (config_ c)); [discriminate|reflexivity].
Qed.

Lemma getDevices_mandatory_keys_witness :
  getDevices {| config_ := [("cpu-threads", VInt 8)] |} 0 1
    = Throw (YamlInvalidNode "devices") /\
  getDevices {| config_ := [("devices", VList ["0"])] |} 0 1
    = Throw (YamlInvalidNode "cpu-threads").
Proof.
  split.
  - apply (proj1 (getDevices_mandatory_keys
                    {| config_ := [("cpu-threads", VInt 8)] |} 0 1)).
    reflexivity.
  - apply (proj2 (getDevices_mandatory_keys
                    {| config_ := [("devices", VList ["0"])] |} 0 1) ["0"]);
      reflexivity.
Defined.

Lemma parse_in_order (ds : list string) :
  forall acc out,
    for_each ds (fun d deviceNos => n <- stoull d ;; Ret (deviceNos ++ [n])) acc
      = Ret out <->
    exists ns, out = acc ++ ns /\ Forall2 (fun d n => stoull d = Ret n) ds ns.
Proof.
  induction ds as [|d ds IH]; intros acc out; simpl.
  - split.
    + intros H. inversion H. exists []. split; [now rewrite app_nil_r|constructor].
    + intros (ns & Hout & Hall). inversion Hall. subst.
      now rewrite app_nil_r.
  - split.
    + destruct (stoull d) as [n| | |] eqn:E; cbn [bind]; try discriminate.
      intros H. apply IH in H. destruct H as (ns & Hout & Hall).
      exists (n :: ns). split.
      * rewrite Hout, <- app_assoc. reflexivity.
      * now constructor.
    + intros (ns & Hout & Hall). inversion Hall as [|? n ? ns' Hd Hrest]. subst.
      rewrite Hd. cbn [bind]. apply IH. exists ns'. split; [|exact Hrest].
      now rewrite <- app_assoc.
Qed.

(** X7. [devices] is read entry by entry, in order and without dropping
    duplicates: the numbers obtained are the entries' values, position by
    position, and there is a result exactly when every entry is a number. *)
Theorem parseDevices_in_order (devicesArg : list string) (deviceNos : list N) :
  parseDevices devicesArg = Ret deviceNos <->
  Forall2 (fun d n => stoull d = Ret n) devicesArg deviceNos.
Proof.
  unfold parseDevices. rewrite parse_in_order. cbn [app]. split.
  - intros (ns & Hout & Hall). now subst.
  - intros H. now exists deviceNos.
Qed.

Lemma parse_first_failure (good : list string) (bad : string) (rest : list string)
    (e : Exn) :
  Forall (fun d => exists n, stoull d = Ret n) good ->
  stoull bad = Throw e ->
  forall acc,
    for_each (good ++ bad :: rest)
      (fun d deviceNos => n <- stoull d ;; Ret (deviceNos ++ [n])) acc = Throw e.
Proof.
  intros Hgood Hbad. induction Hgood as [|d good [n Hd] _ IH]; intros acc; simpl.
  - now rewrite Hbad.
  - rewrite Hd. cbn [bind]. apply IH.
Qed.

(** X8. In the GPU path the first entry of [devices] that is not a number makes
    the call throw what [std::stoull] throws for it; no check on sizes is
    reached. *)
Theorem getDevices_bad_device (c : Config) (good : list string) (bad : string)
    (rest : list string) (e : Exn) (nd0 r np : N) :
  get (T := list string) c "devices" = Ret (good ++ bad :: rest) ->
  get (T := N) c "cpu-threads" = Ret 0 ->
  (if has c "num-devices" then get (T := N) c "num-devices" else Ret 0) = Ret nd0 ->
  Forall (fun d => exists n, stoull d = Ret n) good ->
  stoull bad = Throw e ->
  getDevices c r np = Throw e.
Proof.
  intros Hd Hc Hn Hgood Hbad.
  unfold getDevices. rewrite Hd. cbn [bind]. rewrite Hc. cbn [bind].
  change (0 <? 0) with false. cbv iota. rewrite Hn. cbn [bind].
  unfold parseDevices. now rewrite (parse_first_failure good bad rest e).
Qed.

Lemma getDevices_bad_device_witness :
  getDevices (deviceConfig 0 (Some 1%Z) ["0"; "gpu1"; "2"]) 0 1
    = Throw InvalidArgument.
Proof.
  apply (getDevices_bad_device (deviceConfig 0 (Some 1%Z) ["0"; "gpu1"; "2"])
           ["0"] "gpu1" ["2"] InvalidArgument 1 0 1);
    try reflexivity.
  constructor; [exists 0; reflexivity | constructor].
Defined.

(** X9. With one of the two options only, every process gets the same list,
    whatever its rank and however many processes there are: [num-devices = n]
    alone gives the devices [0 .. n-1]; [devices] alone gives the listed
    devices, in the order listed. *)
Theorem getDevices_one_option (c : Config) (r np : N) :
  get (T := N) c "cpu-threads" = Ret 0 ->
  (forall n,
      get (T := list string) c "devices" = Ret [] ->
      get (T := N) c "num-devices" = Ret n -> n <> 0 ->
      getDevices c r np = Ret (map gpuId (iota 0 (N.to_nat n)))) /\
  (forall devicesArg deviceNos,
      get (T := list string) c "devices" = Ret devicesArg ->
      devicesArg <> [] -> vsize devicesArg < SIZE_MOD ->
      unresolved c ->
      parseDevices devicesArg = Ret deviceNos ->
      getDevices c r np = Ret (map gpuId deviceNos)).
Proof.
  intros Hc. split.
  - intros n Hd Hn Hne.
    assert (Hg : gpuDefaults n [] = (n, iota 0 (N.to_nat n))).
    { unfold gpuDefaults. rewrite for_upto_push. cbn [app]. rewrite map_id.
      apply N.eqb_neq in Hne. now rewrite Hne. }
    apply (getDevices_whole_list c n).
    + exists [], n, [].
      split; [exact Hd|]. split; [exact Hc|].
      split; [now apply resolved_value|]. split; [reflexivity|].
      split; [exact Hg | reflexivity].
    + now rewrite vsize_iota.
  - intros da dn Hd Hne Hlen Hu Hparse.
    pose proof (parseDevices_vsize da dn Hparse) as Hsize.
    assert (Hg : gpuDefaults 0 dn = (vsize dn, dn)).
    { destruct dn as [|x dn]; [|reflexivity].
      destruct da; [congruence|discriminate Hsize]. }
    apply (getDevices_whole_list c (vsize dn)); [|reflexivity].
    exists da, 0, dn.
    split; [exact Hd|]. split; [exact Hc|].
    split; [now apply unresolved_zero|]. split; [exact Hparse|].
    split; [exact Hg | exact Hlen].
Qed.

Lemma getDevices_one_option_witness :
  getDevices (deviceConfig 0 (Some 3%Z) []) 5 7 = Ret (map gpuId [0; 1; 2]) /\
  getDevices (deviceConfig 0 None ["4"; "2"; "4"]) 5 7 = Ret (map gpuId [4; 2; 4]).
Proof.
  split.
  - apply (proj1 (getDevices_one_option (deviceConfig 0 (Some 3%Z) []) 5 7
                    eq_refl) 3); [reflexivity | reflexivity | discriminate].
  - apply (proj2 (getDevices_one_option (deviceConfig 0 None ["4"; "2"; "4"]) 5 7
                    eq_refl) ["4"; "2"; "4"] [4; 2; 4]);
      [reflexivity | discriminate | reflexivity | left; reflexivity
      | reflexivity].
Defined.

(* ================================================================= *)
(** * Further properties of [override] *)

Lemma keys_assign_old (k : string) (v : Value) (d : Document) :
  In k (keys d) -> keys (assign k v d) = keys d.
Proof.
  induction d as [|[x w] d IH]; simpl; [tauto|].
  intros Hin. destruct (String.eqb x k) eqn:E; [reflexivity|].
  simpl. f_equal. apply IH. destruct Hin as [Hx|Hin]; [|exact Hin].
  apply String.eqb_neq in E. contradiction.
Qed.

Lemma keys_assign_new (k : string) (v : Value) (d : Document) :
  ~ In k (keys d) -> keys (assign k v d) = keys d ++ [k].
Proof.
  induction d as [|[x w] d IH]; simpl; [reflexivity|].
  intros Hin. destruct (String.eqb x k) eqn:E.
  - apply String.eqb_eq in E. tauto.
  - simpl. f_equal. apply IH. tauto.
Qed.

Lemma keys_assignAll (params : Document) :
  forall d,
  exists extra,
    keys (assignAll params d) = keys d ++ extra /\
    NoDup extra /\
    (forall k, In k extra <-> In k (keys params) /\ ~ In k (keys d)).
Proof.
  induction params as [|[k v] params IH]; intros d.
  - exists []. simpl. split; [now rewrite app_nil_r|]. split; [constructor|].
    intros x. tauto.
  - simpl. destruct (IH (assign k v d)) as (extra & Hkeys & Hnd & Hin).
    destruct (in_dec string_dec k (keys d)) as [Hk|Hk].
    + exists extra. rewrite (keys_assign_old k v d Hk) in Hkeys, Hin.
      split; [exact Hkeys|]. split; [exact Hnd|].
      intros x. rewrite Hin. split.
      * tauto.
      * intros [[Hx|Hx] Hnot]; [subst x; contradiction|tauto].
    + exists (k :: extra). rewrite (keys_assign_new k v d Hk) in Hkeys, Hin.
      split; [now rewrite Hkeys, <- app_assoc|]. split.
      * constructor; [|exact Hnd]. intros Hc. apply Hin in Hc.
        destruct Hc as [_ Hc]. apply Hc, in_or_app. right. now left.
      * intros x. simpl. rewrite Hin. rewrite in_app_iff. simpl.
        destruct (string_dec k x) as [Hkx|Hkx]; [subst x; tauto|tauto].
Qed.

(** X10. [override] keeps the entries of the store where they are and appends
    the keys that are new, each once: the keys of the result are the keys of
    the store followed by the keys [doc] adds. *)
Theorem override_keeps_order (doc : Document) (s : Config) :
  exists extra,
    keys (config_ (override doc s)) = keys (config_ s) ++ extra /\
    NoDup extra /\
    (forall k, In k extra <-> In k (keys doc) /\ ~ In k (keys (config_ s))).
Proof. rewrite override_config. apply keys_assignAll. Qed.

(** X11. A store whose keys are unique keeps unique keys under [override], also
    when [doc] names a key more than once. *)
Theorem override_unique_keys (doc : Document) (s : Config) :
  NoDup (keys (config_ s)) -> NoDup (keys (config_ (override doc s))).
Proof.
  intros Hs. rewrite override_config.
  destruct (keys_assignAll doc (config_ s)) as (extra & Hkeys & Hnd & Hin).
  rewrite Hkeys. apply NoDup_app; try assumption.
  intros k Hk Hextra. apply Hin in Hextra. tauto.
Qed.

Lemma override_unique_keys_witness :
  NoDup (keys (config_ (override [("seed", VInt 2); ("dim", VInt 3); ("dim", VInt 4)]
                                 {| config_ := [("seed", VInt 1)] |}))).
Proof.
  apply (override_unique_keys [("seed", VInt 2); ("dim", VInt 3); ("dim", VInt 4)]
           {| config_ := [("seed", VInt 1)] |}).
  simpl. constructor; [intros []|constructor].
Defined.

Lemma has_keys (c : Config) (k : string) :
  has c k = true <-> In k (keys (config_ c)).
Proof.
  unfold has. induction (config_ c) as [|[x w] d IH]; simpl.
  - split; [discriminate|tauto].
  - destruct (String.eqb x k) eqn:E.
    + apply String.eqb_eq in E. tauto.
    + apply String.eqb_neq in E. rewrite IH. tauto.
Qed.

(** X12. After [override(doc)] the store has a key exactly when it had it before
    or [doc] names it: no key is ever removed. *)
Theorem override_has (doc : Document) (s : Config) (k : string) :
  has (override doc s) k = true <-> has s k = true \/ In k (keys doc).
Proof.
  rewrite !has_keys, override_config.
  destruct (keys_assignAll doc (config_ s)) as (extra & Hkeys & _ & Hin).
  rewrite Hkeys, in_app_iff, Hin.
  destruct (in_dec string_dec k (keys (config_ s))); tauto.
Qed.

Lemma assign_hides (k : string) (v w : Value) (params : Document) :
  forall d,
    In k (keys d) ->
    assign k w (assignAll params (assign k v d)) = assign k w (assignAll params d).
Proof.
  induction params as [|[x u] params IH]; intros d Hk; simpl.
  - apply assign_twice.
  - destruct (string_dec x k) as [E|E].
    + subst x. now rewrite assign_twice.
    + rewrite <- (assign_comm x k u v d) by assumption.
      apply IH, keys_assign. now right.
Qed.

Lemma assignAll_hides (k : string) (v : Value) (params d : Document) :
  In k (keys params) -> In k (keys d) ->
  assignAll params (assign k v d) = assignAll params d.
Proof.
  intros Hp Hd. unfold keys in Hp. apply in_map_iff in Hp.
  destruct Hp as ([k' w] & Hk & Hp). simpl in Hk. subst k'.
  apply in_split in Hp. destruct Hp as (front & back & Hp). subst params.
  rewrite !assignAll_app. simpl. now rewrite assign_hides.
Qed.

(** X13. Two overrides in a row are one override with the two documents one
    after the other.  A later override hides an earlier one altogether when
    it names all the keys of the earlier one and the store had them already. *)
Theorem override_compose (d1 d2 : Document) (s : Config) :
  override d2 (override d1 s) = override (d1 ++ d2) s /\
  ((forall k, In k (keys d1) -> In k (keys d2) /\ In k (keys (config_ s))) ->
   override d2 (override d1 s) = override d2 s).
Proof.
  split.
  - unfold override. cbn [config_]. now rewrite fold_left_app.
  - intros Hsub. unfold override. cbn [config_]. f_equal.
    change (assignAll d2 (assignAll d1 (config_ s)) = assignAll d2 (config_ s)).
    generalize dependent (config_ s). clear s.
    induction d1 as [|[k v] d1 IH]; intros d Hsub; [reflexivity|].
    simpl. rewrite IH.
    + apply assignAll_hides; apply (Hsub k); now left.
    + intros x Hx. destruct (Hsub x (or_intror Hx)) as [H2 Hd].
      split; [exact H2|]. apply keys_assign. now right.
Qed.

Lemma override_compose_witness :
  let s := {| config_ := [("seed", VInt 1); ("dim", VInt 512)] |} in
  override [("dim", VInt 256); ("version", VStr "v1.7.0")]
           (override [("dim", VInt 1024)] s)
    = override [("dim", VInt 256); ("version", VStr "v1.7.0")] s.
Proof.
  intros s.
  apply (proj2 (override_compose [("dim", VInt 1024)]
                  [("dim", VInt 256); ("version", VStr "v1.7.0")] s)).
  intros k [Hk|[]]. subst k. split; simpl; tauto.
Defined.

(* ================================================================= *)
(** * Further properties of [initialize] and its parts *)

(** Runs the load block as far as the facts at hand decide it. *)
Ltac run_load :=
  unfold loadModel, try_catch_runtime_error, loadModelParameters, mbind, lift, mret;
  repeat (cbv beta iota; cbn [negb cli.eqb];
          match goal with
          | H : ?l = _ |- context [?l] => rewrite H
          end);
  cbv beta iota; cbn [negb cli.eqb].

(** X14. When the loader is left alone.  In the modes other than translation a
    model file that does not exist, or ["no-reload"], skips the load; in every
    mode ["ignore-model-config"] skips it.  The block then returns with the
    store, the seed and the log as they were, whatever the loader would have
    done. *)
Theorem loadModel_skips (file_exists : string -> bool)
    (getYamlFromModel : string -> Result Document) (mode : cli.mode)
    (w : World) (model : string) :
  (mode <> cli.translation ->
   get (T := string) (this w) "model" = Ret model ->
   (file_exists model = false \/
    (file_exists model = true /\
     get (T := bool) (this w) "no-reload" = Ret true) \/
    (file_exists model = true /\
     get (T := bool) (this w) "no-reload" = Ret false /\
     get (T := bool) (this w) "ignore-model-config" = Ret true)) ->
   loadModel file_exists getYamlFromModel mode w = (Ret tt, w)) /\
  (mode = cli.translation ->
   (exists rest, get (T := list string) (this w) "models" = Ret (model :: rest)) ->
   get (T := bool) (this w) "ignore-model-config" = Ret true ->
   loadModel file_exists getYamlFromModel mode w = (Ret tt, w)).
Proof.
  split.
  - intros Hmode Hmodel Hcase. apply cli_eqb_neq in Hmode.
    destruct Hcase as [Hex|[[Hex Hnr]|(Hex & Hnr & Hign)]];
      run_load; reflexivity.
  - intros Hmode [rest Hmodels] Hign. subst mode. run_load. reflexivity.
Qed.

Lemma loadModel_skips_witness :
  loadModel (fun _ => false) (fun _ => Abort "never read") cli.training
    {| this := {| config_ := trainingSettings |}; seed := 0; logged := [] |}
  = (Ret tt,
     {| this := {| config_ := trainingSettings |}; seed := 0; logged := [] |}).
Proof.
  apply (proj1 (loadModel_skips (fun _ => false) (fun _ => Abort "never read")
                  cli.training
                  {| this := {| config_ := trainingSettings |}; seed := 0;
                     logged := [] |} "model.npz")).
  - discriminate.
  - reflexivity.
  - left. reflexivity.
Defined.

Lemma setSeed_runs (time0 : N) (c : Config) (s s0 : N) (l : list LogEntry) :
  get (T := N) c "seed" = Ret s ->
  setSeed time0 {| this := c; seed := s0; logged := l |}
    = (Ret tt, {| this := c; seed := if s =? 0 then time0 else s; logged := l |}).
Proof.
  intros Hseed. unfold setSeed, mbind, lift. cbn [this]. rewrite Hseed.
  destruct (s =? 0); [reflexivity|].
  change (this {| this := c; seed := s0; logged := l |}) with c.
  now rewrite Hseed.
Qed.

(** X15. What the loader lets out besides [std::runtime_error] is not caught: the
    exception, or the abort, leaves the load block and [initialize] with it,
    before the configuration is logged. *)
Theorem loadModel_propagates
    (parsed : Document) (time0 : N) (file_exists : string -> bool)
    (getYamlFromModel : string -> Result Document)
    (OutputYaml : Document -> list string) (P : string)
    (mode : cli.mode) (w0 : World) (model : string) (s : N)
    (failure : Result unit) :
  let c := {| config_ := parsed |} in
  reachesLoader file_exists c mode model ->
  get (T := N) c "seed" = Ret s ->
  ((exists e, getYamlFromModel model = Throw e /\ is_runtime_error e = false /\
              failure = Throw e) \/
   (exists msg, getYamlFromModel model = Abort msg /\ failure = Abort msg)) ->
  (forall w, this w = c ->
     loadModel file_exists getYamlFromModel mode w = (failure, w)) /\
  initialize parsed time0 file_exists getYamlFromModel OutputYaml P mode w0
    = (failure,
       {| this := c; seed := if s =? 0 then time0 else s; logged := logged w0 |}).
Proof.
  intros c [Hign Hpath] Hseed Hfail.
  assert (Hblock : forall w, this w = c ->
            loadModel file_exists getYamlFromModel mode w = (failure, w)).
  { intros w Hw. rewrite <- Hw in Hign, Hpath.
    destruct Hpath as [(Hmode & Hmodel & Hex & Hnr) | (Hmode & rest & Hmodels)];
      [apply cli_eqb_neq in Hmode | subst mode];
      destruct Hfail as [(e & Hl & Hrt & Hf)|(msg & Hl & Hf)]; subst failure;
      run_load; reflexivity. }
  split; [exact Hblock|].
  unfold initialize. unfold mbind at 1. unfold set_config at 1.
  unfold mbind at 1. fold c. rewrite (setSeed_runs time0 c s) by exact Hseed.
  unfold mbind at 1. rewrite Hblock by reflexivity.
  destruct Hfail as [(e & _ & _ & Hf)|(msg & _ & Hf)]; rewrite Hf; reflexivity.
Qed.

Lemma loadModel_propagates_witness :
  initialize trainingSettings 42 (fun _ => true)
      (fun _ => Throw (OtherException "bad_alloc"))
      (fun _ => ["seed: 0"]) "v1.7.0" cli.training startWorld
    = (Throw (OtherException "bad_alloc"),
       {| this := {| config_ := trainingSettings |}; seed := 42; logged := [] |}).
Proof.
  assert (Hr : reachesLoader (fun _ => true) {| config_ := trainingSettings |}
                 cli.training "model.npz").
  { split; [reflexivity|].
    left. repeat split; try reflexivity. discriminate. }
  exact (proj2 (loadModel_propagates trainingSettings 42 (fun _ => true)
                  (fun _ => Throw (OtherException "bad_alloc"))
                  (fun _ => ["seed: 0"]) "v1.7.0" cli.training startWorld
                  "model.npz" 0 (Throw (OtherException "bad_alloc"))
                  Hr eq_refl
                  (or_introl (ex_intro _ (OtherException "bad_alloc")
                                (conj eq_refl (conj eq_refl eq_refl)))))).
Defined.

Lemma logVersion_frame (P : string) (mode : cli.mode) (w : World) :
  this (snd (logVersion P mode w)) = this w /\
  seed (snd (logVersion P mode w)) = seed w /\
  exists es, logged (snd (logVersion P mode w)) = logged w ++ es.
Proof.
  unfold logVersion, mbind, lift, mret. cbv beta.
  destruct (has (this w) "version"); cbv iota.
  - destruct (get (T := string) (this w) "version") as [v| | |]; cbv iota;
      try (cbn [snd]; repeat split; exists []; now rewrite app_nil_r).
    destruct (cli.eqb mode cli.training && negb (String.eqb v P));
      cbn [snd LOG this seed logged]; repeat split; eexists; reflexivity.
  - destruct (cli.eqb mode cli.training).
    + cbn [snd LOG this seed logged]. repeat split. eexists. reflexivity.
    + cbn [snd]. repeat split. exists []. now rewrite app_nil_r.
Qed.

Lemma loadModel_loads (file_exists : string -> bool)
    (getYamlFromModel : string -> Result Document) (mode : cli.mode)
    (w : World) (model : string) (doc : Document) :
  reachesLoader file_exists (this w) mode model ->
  getYamlFromModel model = Ret doc ->
  loadModel file_exists getYamlFromModel mode w
    = (Ret tt,
       {| this := override doc (this w); seed := seed w; logged := logged w |}).
Proof.
  intros [Hign [(Hmode & Hmodel & Hex & Hnr) | (Hmode & rest & Hmodels)]] Hl;
    [apply cli_eqb_neq in Hmode | subst mode]; run_load; reflexivity.
Qed.

(** X16. A model file with settings.  The loaded document overrides the store
    before the configuration is logged, so the log shows the merged store.
    The static seed was fixed before the load, from the parser's ["seed"]
    (the clock for 0): a ["seed"] in the model file changes the store, not
    [Config::seed]. *)
Theorem initialize_loads
    (parsed : Document) (time0 : N) (file_exists : string -> bool)
    (getYamlFromModel : string -> Result Document)
    (OutputYaml : Document -> list string) (P : string)
    (mode : cli.mode) (w0 : World) (model : string) (doc : Document) (s : N) :
  let c := {| config_ := parsed |} in
  let result :=
    initialize parsed time0 file_exists getYamlFromModel OutputYaml P mode w0 in
  reachesLoader file_exists c mode model ->
  getYamlFromModel model = Ret doc ->
  get (T := N) c "seed" = Ret s ->
  result
    = logVersion P mode
        {| this := override doc c;
           seed := if s =? 0 then time0 else s;
           logged :=
             logged w0
             ++ map (fun r => entry "[config] {}" [r])
                    (OutputYaml (config_ (override doc c))) |} /\
  this (snd result) = override doc c /\
  seed (snd result) = (if s =? 0 then time0 else s).
Proof.
  intros c result Hreach Hl Hseed.
  assert (Heq : result
            = logVersion P mode
                {| this := override doc c;
                   seed := if s =? 0 then time0 else s;
                   logged :=
                     logged w0
                     ++ map (fun r => entry "[config] {}" [r])
                            (OutputYaml (config_ (override doc c))) |}).
  { unfold result, initialize. unfold mbind at 1. unfold set_config at 1.
    unfold mbind at 1. fold c. rewrite (setSeed_runs time0 c s) by exact Hseed.
    unfold mbind at 1.
    rewrite (loadModel_loads file_exists getYamlFromModel mode _ model doc)
      by assumption.
    unfold mbind at 1. rewrite log_emit. reflexivity. }
  split; [exact Heq|]. rewrite Heq.
  split; [apply logVersion_frame | apply logVersion_frame].
Qed.

Lemma initialize_loads_witness :
  let result :=
    initialize translationSettings 42 (fun _ => false) (fun _ => Ret modelSettings)
      (fun _ => []) "v1.7.0" cli.translation startWorld in
  get (T := N) (this (snd result)) "seed" = Ret 3 /\ seed (snd result) = 1111.
Proof.
  intros result.
  assert (Hr : reachesLoader (fun _ => false)
                 {| config_ := translationSettings |}
                 cli.translation "model.npz").
  { split; [reflexivity|].
    right. split; [reflexivity|]. exists ["other.npz"]. reflexivity. }
  destruct (initialize_loads translationSettings 42 (fun _ => false)
              (fun _ => Ret modelSettings) (fun _ => []) "v1.7.0"
              cli.translation startWorld "model.npz" modelSettings 1111
              Hr eq_refl eq_refl) as (_ & Hthis & Hseed).
  split; [|exact Hseed]. fold result in Hthis. rewrite Hthis. reflexivity.
Defined.

Lemma get_override_string (doc front back : Document) (c : Config) (k v : string) :
  doc = front ++ (k, VStr v) :: back -> ~ In k (keys back) ->
  get (T := string) (override doc c) k = Ret v.
Proof.
  intros Hdoc Hk. subst doc. unfold get.
  rewrite override_config, assignAll_app. simpl.
  rewrite lookup_assignAll_other by exact Hk.
  now rewrite lookup_assign_same.
Qed.

(** X17. The version of a loaded model, end to end.  When the model file's
    settings carry ["version"] = v, [initialize] returns with the merged
    store, logs it, and closes the log with the upgrade message in training
    when v is not the build's version, and with the "has been created with
    Marian v" message otherwise. *)
Theorem initialize_logs_model_version
    (parsed : Document) (time0 : N) (file_exists : string -> bool)
    (getYamlFromModel : string -> Result Document)
    (OutputYaml : Document -> list string) (P : string)
    (mode : cli.mode) (w0 : World) (model : string)
    (front back : Document) (v : string) (s : N) :
  let c := {| config_ := parsed |} in
  let doc := front ++ ("version", VStr v) :: back in
  reachesLoader file_exists c mode model ->
  getYamlFromModel model = Ret doc ->
  ~ In "version" (keys back) ->
  get (T := N) c "seed" = Ret s ->
  initialize parsed time0 file_exists getYamlFromModel OutputYaml P mode w0
    = (Ret tt,
       {| this := override doc c;
          seed := if s =? 0 then time0 else s;
          logged :=
            logged w0
            ++ map (fun r => entry "[config] {}" [r])
                   (OutputYaml (config_ (override doc c)))
            ++ [if cli.eqb mode cli.training && negb (String.eqb v P)
                then entry MSG_UPGRADE [v; P] else entry MSG_LOADED [v]] |}).
Proof.
  intros c doc Hreach Hl Hlast Hseed.
  unfold initialize. unfold mbind at 1. unfold set_config at 1.
  unfold mbind at 1. fold c. rewrite (setSeed_runs time0 c s) by exact Hseed.
  unfold mbind at 1.
  rewrite (loadModel_loads file_exists getYamlFromModel mode _ model doc)
    by assumption.
  unfold mbind at 1. rewrite log_emit.
  rewrite (logVersion_present P mode _ v).
  - unfold emit. cbn [this seed logged]. now rewrite <- app_assoc.
  - cbn [emit this]. now apply (get_override_string doc front back).
Qed.

Lemma initialize_logs_model_version_witness :
  initialize trainingSettings 42 (fun _ => true) (fun _ => Ret modelSettings)
    (fun _ => []) "v1.7.0" cli.training startWorld
  = (Ret tt,
     {| this := override modelSettings {| config_ := trainingSettings |};
        seed := 42;
        logged := [entry MSG_UPGRADE ["v1.6.0"; "v1.7.0"]] |}).
Proof.
  assert (Hr : reachesLoader (fun _ => true) {| config_ := trainingSettings |}
                 cli.training "model.npz").
  { split; [reflexivity|].
    left. repeat split; try reflexivity. discriminate. }
  assert (Hlast : ~ In "version" (keys [])) by (intros []).
  exact (initialize_logs_model_version trainingSettings 42 (fun _ => true)
           (fun _ => Ret modelSettings) (fun _ => []) "v1.7.0" cli.training
           startWorld "model.npz" [("seed", VInt 3)] [] "v1.6.0" 0
           Hr eq_refl Hlast eq_refl).
Defined.

(** X18. ["ignore-model-config"] is read inside the [try]: when the key is
    missing, the exception of the read is a [std::runtime_error] and is
    caught like the loader's.  The loader is not called, the log says "No
    model configuration found in model file", and the block returns. *)
Theorem loadModel_missing_ignore_flag (file_exists : string -> bool)
    (getYamlFromModel : string -> Result Document) (mode : cli.mode)
    (w : World) (model : string) :
  has (this w) "ignore-model-config" = false ->
  (mode <> cli.translation /\
   get (T := string) (this w) "model" = Ret model /\
   file_exists model = true /\
   get (T := bool) (this w) "no-reload" = Ret false) \/
  (mode = cli.translation /\
   exists rest, get (T := list string) (this w) "models" = Ret (model :: rest)) ->
  loadModel file_exists getYamlFromModel mode w
    = (Ret tt, emit w [entry MSG_NO_MODEL_CONFIG []]).
Proof.
  intros Hhas Hpath.
  assert (Hign : get (T := bool) (this w) "ignore-model-config"
                 = Throw (YamlInvalidNode "ignore-model-config")).
  { unfold has in Hhas. unfold get.
    destruct (lookup "ignore-model-config" (config_ (this w)));
      [discriminate|reflexivity]. }
  destruct Hpath as [(Hmode & Hmodel & Hex & Hnr) | (Hmode & rest & Hmodels)];
    [apply cli_eqb_neq in Hmode | subst mode]; run_load; reflexivity.
Qed.

Lemma loadModel_missing_ignore_flag_witness :
  loadModel (fun _ => true) (fun _ => Abort "never read") cli.translation
    {| this := {| config_ := [("models", VList ["model.npz"])] |};
       seed := 0; logged := [] |}
  = (Ret tt,
     {| this := {| config_ := [("models", VList ["model.npz"])] |};
        seed := 0; logged := [entry MSG_NO_MODEL_CONFIG []] |}).
Proof.
  apply (loadModel_missing_ignore_flag (fun _ => true)
           (fun _ => Abort "never read") cli.translation
           {| this := {| config_ := [("models", VList ["model.npz"])] |};
              seed := 0; logged := [] |} "model.npz").
  - reflexivity.
  - right. split; [reflexivity|]. exists []. reflexivity.
Defined.

Lemma get_missing {T : Type} `{Convert T} (c : Config) (key : string) :
  has c key = false -> get (T := T) c key = Throw (YamlInvalidNode key).
Proof.
  unfold has, get. destruct (lookup key (config_ c)); [discriminate|reflexivity].
Qed.

(** X19. The keys read outside the [try] have no default: without ["seed"]
    [initialize] throws before anything is loaded or logged; without
    ["model"] (modes other than translation), without ["no-reload"] when the
    model file exists, or without ["models"] (translation) the load block
    throws; and an empty ["models"] list makes the block index an empty
    vector. *)
Theorem initialize_mandatory_keys
    (parsed : Document) (time0 : N) (file_exists : string -> bool)
    (getYamlFromModel : string -> Result Document)
    (OutputYaml : Document -> list string) (P : string)
    (mode : cli.mode) (w : World) :
  (has {| config_ := parsed |} "seed" = false ->
   initialize parsed time0 file_exists getYamlFromModel OutputYaml P mode w
     = (Throw (YamlInvalidNode "seed"),
        {| this := {| config_ := parsed |}; seed := seed w; logged := logged w |})) /\
  (mode <> cli.translation -> has (this w) "model" = false ->
   loadModel file_exists getYamlFromModel mode w
     = (Throw (YamlInvalidNode "model"), w)) /\
  (forall model,
      mode <> cli.translation ->
      get (T := string) (this w) "model" = Ret model ->
      file_exists model = true -> has (this w) "no-reload" = false ->
      loadModel file_exists getYamlFromModel mode w
        = (Throw (YamlInvalidNode "no-reload"), w)) /\
  (mode = cli.translation -> has (this w) "models" = false ->
   loadModel file_exists getYamlFromModel mode w
     = (Throw (YamlInvalidNode "models"), w)) /\
  (mode = cli.translation ->
   get (T := list string) (this w) "models" = Ret [] ->
   loadModel file_exists getYamlFromModel mode w
     = (Undefined "operator[] on an empty vector", w)).
Proof.
  split; [|split; [|split; [|split]]].
  - intros Hseed. apply (get_missing (T := N)) in Hseed.
    unfold initialize. unfold mbind at 1. unfold set_config at 1.
    unfold mbind at 1. unfold setSeed, mbind, lift. cbn [this].
    now rewrite Hseed.
  - intros Hmode Hmodel. apply cli_eqb_neq in Hmode.
    apply (get_missing (T := string)) in Hmodel. run_load. reflexivity.
  - intros model Hmode Hmodel Hex Hnr. apply cli_eqb_neq in Hmode.
    apply (get_missing (T := bool)) in Hnr. run_load. reflexivity.
  - intros Hmode Hmodels. subst mode.
    apply (get_missing (T := list string)) in Hmodels. run_load. reflexivity.
  - intros Hmode Hmodels. subst mode. run_load. reflexivity.
Qed.

Lemma initialize_mandatory_keys_witness :
  initialize [("model", VStr "model.npz")] 42 (fun _ => true)
    (fun _ => Ret modelSettings) (fun _ => []) "v1.7.0" cli.training startWorld
  = (Throw (YamlInvalidNode "seed"),
     {| this := {| config_ := [("model", VStr "model.npz")] |};
        seed := 0; logged := [] |}) /\
  loadModel (fun _ => true) (fun _ => Ret modelSettings) cli.translation
    {| this := {| config_ := [("models", VList [])] |}; seed := 0; logged := [] |}
  = (Undefined "operator[] on an empty vector",
     {| this := {| config_ := [("models", VList [])] |}; seed := 0; logged := [] |}).
Proof.
  split.
  - apply (proj1 (initialize_mandatory_keys [("model", VStr "model.npz")] 42
                    (fun _ => true) (fun _ => Ret modelSettings) (fun _ => [])
                    "v1.7.0" cli.training startWorld)).
    reflexivity.
  - apply (proj2 (proj2 (proj2 (proj2
             (initialize_mandatory_keys [] 42 (fun _ => true)
                (fun _ => Ret modelSettings) (fun _ => []) "v1.7.0"
                cli.translation
                {| this := {| config_ := [("models", VList [])] |};
                   seed := 0; logged := [] |})))));
      reflexivity.
Defined.

(** ** What [initialize] leaves behind, whatever its outcome *)

Ltac frame_done :=
  unfold mret; cbv beta iota; cbn [negb]; cbv beta iota;
  cbn [snd this seed logged LOG];
  split; [reflexivity|];
  split;
  [ first [exists []; now rewrite app_nil_r | eexists; reflexivity]
  | first [left; reflexivity | right; eauto] ].

Lemma guarded_load_frame (getYamlFromModel : string -> Result Document)
    (w : World) (model : string) :
  let w' :=
    snd (try_catch_runtime_error
           (do ignore <- lift (fun c => get (T := bool) c "ignore-model-config");
            if negb ignore then loadModelParameters getYamlFromModel model
            else mret tt)
           (LOG info MSG_NO_MODEL_CONFIG []) w) in
  seed w' = seed w /\
  (exists es, logged w' = logged w ++ es) /\
  (this w' = this w \/
   exists m doc, getYamlFromModel m = Ret doc /\ this w' = override doc (this w)).
Proof.
  unfold try_catch_runtime_error, loadModelParameters, mbind, lift, mret.
  cbv beta.
  destruct (get (T := bool) (this w) "ignore-model-config") as [ig|e| |];
    cbv iota.
  - destruct ig; cbn [negb]; cbv beta iota; [frame_done|].
    destruct (getYamlFromModel model) as [doc|e| |] eqn:E; cbv iota;
      try frame_done.
    destruct (is_runtime_error e); frame_done.
  - destruct (is_runtime_error e); frame_done.
  - frame_done.
  - frame_done.
Qed.

Lemma loadModel_frame (file_exists : string -> bool)
    (getYamlFromModel : string -> Result Document) (mode : cli.mode) (w : World) :
  let w' := snd (loadModel file_exists getYamlFromModel mode w) in
  seed w' = seed w /\
  (exists es, logged w' = logged w ++ es) /\
  (this w' = this w \/
   exists m doc, getYamlFromModel m = Ret doc /\ this w' = override doc (this w)).
Proof.
  unfold loadModel. destruct (negb (cli.eqb mode cli.translation)).
  - unfold mbind, lift, mret. cbv beta.
    destruct (get (T := string) (this w) "model") as [model| | |]; cbv iota;
      try frame_done.
    destruct (file_exists model); cbv beta iota; [|frame_done].
    destruct (get (T := bool) (this w) "no-reload") as [nr| | |]; cbv iota;
      try frame_done.
    destruct nr; cbn [negb]; cbv beta iota; [frame_done|].
    exact (guarded_load_frame getYamlFromModel w model).
  - unfold mbind, lift, mret. cbv beta.
    destruct (get (T := list string) (this w) "models") as [models| | |];
      cbv iota; try frame_done.
    destruct models as [|model rest]; cbv iota; [frame_done|].
    exact (guarded_load_frame getYamlFromModel w model).
Qed.

Lemma setSeed_frame (time0 : N) (w : World) :
  this (snd (setSeed time0 w)) = this w /\
  logged (snd (setSeed time0 w)) = logged w.
Proof.
  unfold setSeed, mbind, lift, set_seed. cbv beta.
  destruct (get (T := N) (this w) "seed") as [s| | |]; cbv iota;
    try (split; reflexivity).
  destruct (s =? 0); cbv beta iota; [split; reflexivity|].
  destruct (get (T := N) (this w) "seed"); split; reflexivity.
Qed.

(** X20. However [initialize] ends (it returns, throws or stops), the log it
    found has only been added to, and the store is the parser's, or the
    parser's overridden by a document the loader returned; no other write
    reaches the store. *)
Theorem initialize_invariants
    (parsed : Document) (time0 : N) (file_exists : string -> bool)
    (getYamlFromModel : string -> Result Document)
    (OutputYaml : Document -> list string) (P : string)
    (mode : cli.mode) (w0 : World) :
  let c := {| config_ := parsed |} in
  let w' :=
    snd (initialize parsed time0 file_exists getYamlFromModel OutputYaml P
           mode w0) in
  (exists es, logged w' = logged w0 ++ es) /\
  (this w' = c \/
   exists model doc,
     getYamlFromModel model = Ret doc /\ this w' = override doc c).
Proof.
  intros c w'. unfold w', initialize, mbind, set_config. cbv beta iota.
  set (w1 := {| this := {| config_ := parsed |}; seed := seed w0;
                logged := logged w0 |}).
  destruct (setSeed_frame time0 w1) as [Hs1 Hs2].
  destruct (setSeed time0 w1) as [[[]| | |] w2]; cbn [snd] in *;
    try (split; [exists []; rewrite Hs2; now rewrite app_nil_r
                | left; exact Hs1]).
  destruct (loadModel_frame file_exists getYamlFromModel mode w2)
    as (_ & [es3 Hl3] & Ht3).
  assert (Hstore :
            this (snd (loadModel file_exists getYamlFromModel mode w2)) = c \/
            exists model doc,
              getYamlFromModel model = Ret doc /\
              this (snd (loadModel file_exists getYamlFromModel mode w2))
                = override doc c).
  { rewrite Hs1 in Ht3. exact Ht3. }
  clear Ht3.
  destruct (loadModel file_exists getYamlFromModel mode w2) as [[[]| | |] w3];
    cbn [snd] in *;
    try (split; [exists es3; rewrite Hl3, Hs2; reflexivity | exact Hstore]).
  rewrite log_emit. cbv iota.
  destruct (logVersion_frame P mode
              (emit w3 (map (fun r => entry "[config] {}" [r])
                            (OutputYaml (config_ (this w3))))))
    as (Ht5 & _ & [es5 Hl5]).
  split.
  - eexists. rewrite Hl5. cbn [emit logged]. rewrite Hl3, Hs2.
    rewrite <- !app_assoc. reflexivity.
  - rewrite Ht5. exact Hstore.
Qed.

(** X21. [Config::log] cannot fail and writes nothing but the log: it adds one
    info entry per line of the printed store, in the order of the lines,
    each under the format "[config] {}". *)
Theorem log_one_entry_per_line (OutputYaml : Document -> list string) (w : World) :
  fst (log OutputYaml w) = Ret tt /\
  this (snd (log OutputYaml w)) = this w /\
  seed (snd (log OutputYaml w)) = seed w /\
  logged (snd (log OutputYaml w))
    = logged w
      ++ map (fun r => {| level := info; format := "[config] {}"; args := [r] |})
             (OutputYaml (config_ (this w))).
Proof.
  unfold log. generalize (OutputYaml (config_ (this w))) as lines.
  intros lines. revert w. induction lines as [|r lines IH]; intros w.
  - cbn [for_each_M map]. unfold mret. cbn [fst snd].
    now rewrite app_nil_r.
  - cbn [for_each_M map]. unfold mbind. rewrite LOG_emit.
    destruct (IH (emit w [entry "[config] {}" [r]])) as (Hret & Hthis & Hseed & Hlog).
    split; [exact Hret|]. split; [exact Hthis|]. split; [exact Hseed|].
    rewrite Hlog. cbn [emit logged]. now rewrite <- app_assoc.
Qed.

(** X22. [Config::loadModelParameters]: when the reader returns a document
    the store is overridden with it and nothing else changes; when the reader
    fails, the very failure (the exception thrown, the abort, the undefined
    step) is handed on and the store, the seed and the log are untouched; and
    loading the same model twice in a row leaves what loading it once
    leaves. *)
Theorem loadModelParameters_spec (getYamlFromModel : string -> Result Document)
    (name : string) (w : World) :
  (forall doc,
      getYamlFromModel name = Ret doc ->
      loadModelParameters getYamlFromModel name w
        = (Ret tt, {| this := override doc (this w); seed := seed w;
                      logged := logged w |})) /\
  (forall e,
      getYamlFromModel name = Throw e ->
      loadModelParameters getYamlFromModel name w = (Throw e, w)) /\
  (forall msg,
      getYamlFromModel name = Abort msg ->
      loadModelParameters getYamlFromModel name w = (Abort msg, w)) /\
  (forall what,
      getYamlFromModel name = Undefined what ->
      loadModelParameters getYamlFromModel name w = (Undefined what, w)) /\
  ((forall doc, getYamlFromModel name <> Ret doc) ->
   snd (loadModelParameters getYamlFromModel name w) = w /\
   fst (loadModelParameters getYamlFromModel name w) <> Ret tt) /\
  (loadModelParameters getYamlFromModel name
     >> loadModelParameters getYamlFromModel name) w
    = loadModelParameters getYamlFromModel name w.
Proof.
  unfold loadModelParameters, mbind, lift. cbv beta.
  split; [|split; [|split; [|split; [|split]]]].
  - intros doc H. now rewrite H.
  - intros e H. now rewrite H.
  - intros msg H. now rewrite H.
  - intros what H. now rewrite H.
  - intros H. destruct (getYamlFromModel name) as [doc| | |];
      [now elim (H doc) | | |]; split; try reflexivity; discriminate.
  - destruct (getYamlFromModel name) as [doc| | |]; try reflexivity.
    cbv iota. cbn [this seed logged]. do 2 f_equal.
    unfold override. cbn [config_]. f_equal. apply assignAll_idempotent.
Qed.

Lemma loadModelParameters_spec_witness :
  loadModelParameters (fun _ => Ret modelSettings) "model.npz" startWorld
    = (Ret tt, {| this := {| config_ := modelSettings |}; seed := 0; logged := [] |}) /\
  loadModelParameters (fun _ => Throw (RuntimeError "no special:model.yml"))
     "model.npz" startWorld
    = (Throw (RuntimeError "no special:model.yml"), startWorld) /\
  loadModelParameters (fun _ => Abort "unknown model format") "model.npz" startWorld
    = (Abort "unknown model format", startWorld).
Proof.
  split; [|split].
  - apply (proj1 (loadModelParameters_spec (fun _ => Ret modelSettings)
                    "model.npz" startWorld) modelSettings).
    reflexivity.
  - apply (proj1 (proj2 (loadModelParameters_spec
                    (fun _ => Throw (RuntimeError "no special:model.yml"))
                    "model.npz" startWorld))).
    reflexivity.
  - apply (proj1 (proj2 (proj2 (loadModelParameters_spec
                    (fun _ => Abort "unknown model format")
                    "model.npz" startWorld)))).
    reflexivity.
Defined.
